(** * Synchronized dual-video playback (VideoMesh / VideoPlayer)

    A shallow embedding of the playback controller in [src/app/page.tsx]
    (the [VideoPlayer] component file): the readiness check, the periodic
    drift corrector, the play / pause / seek operations of [VideoMesh] and
    the transport state kept by [VideoPlayer]; further down, the fragment
    shader of [VideoShaderMaterial] and the [VideoTest] component.

    Conventions of the embedding.
    - The two [HTMLVideoElement]s and the window's interval timers are host
      objects.  They are part of the state; every operation the component
      issues on them is also recorded, in order, in a list of [effect]s.
    - A position is a rational number: every double is one.  Where the
      code computes on doubles, in [mainTime - maskTime] and in the constant
      [0.1], the model rounds as binary64 does ([round_to_double]); values
      beyond the largest double are kept as they round, which does not
      change any comparison made here.
    - Assigning to [currentTime] seeks the element: the position is clamped
      to [0, duration] when the duration is known, as the media handle's
      seek is specified to do; the value written is what the list of
      effects records.
    - [useVideoTexture] suspends until its element exists, so the guards
      [videoElement && maskElement] always pass and are left out.
    - [console] output and the [currentVideo] cell, which nothing reads, are
      left out.
    - A re-render is taken to be immediate: every handler sees the current
      value of every [useState] cell.
    - [await Promise.all(playPromises)]: [playVideo] takes the await in one
      step, with the outcome of the two [play()] promises as an input.  The
      part up to the await and the part after it are [playVideo_requests]
      and [playVideo_continuation]; the loop [async_step] runs them as
      separate steps, with any other event in between. *)

From Stdlib Require Import QArith Qabs String List Bool Arith Lia.
From Stdlib Require Import Qminmax Lqa.
Import ListNotations.

Set Implicit Arguments.

(** ** Host objects *)

Inductive handle : Type := Primary | Follower.

(** The fields of an [HTMLVideoElement] the component reads or writes.
    [mediaError] is [element.error?.message]: [None] when [element.error] is
    null. *)
Record video : Type := mkVideo {
  readyState : nat;
  currentTime : Q;
  paused : bool;
  mediaError : option string;
  duration : option Q
}.

Definition with_readyState (n : nat) (v : video) : video :=
  mkVideo n (currentTime v) (paused v) (mediaError v) (duration v).
Definition with_currentTime (t : Q) (v : video) : video :=
  mkVideo (readyState v) t (paused v) (mediaError v) (duration v).
Definition with_paused (b : bool) (v : video) : video :=
  mkVideo (readyState v) (currentTime v) b (mediaError v) (duration v).
Definition with_mediaError (e : option string) (v : video) : video :=
  mkVideo (readyState v) (currentTime v) (paused v) e (duration v).

(** Operations issued on host objects, in the order they are issued. *)
Inductive effect : Type :=
| SetCurrentTime (h : handle) (t : Q)
| Play (h : handle)
| Pause (h : handle)
| SetInterval (id : nat)
| ClearInterval (id : nat).

(** ** Component state

    [videoElement], [maskElement], [bothVideosReady] and [syncIntervalRef]
    belong to [VideoMesh]; [intervals] holds the ids of the running
    interval timers whose callback is [syncVideos], and [nextTimerId] names
    the next one (the player's own poll timer is the event [PollReadiness];
    it takes ids from the same window, so the ids here are names, not the
    window's numbers); the last four fields are the [useState] cells of
    [VideoPlayer]. *)
Record state : Type := mkState {
  videoElement : video;
  maskElement : video;
  bothVideosReady : bool;
  syncIntervalRef : option nat;
  intervals : list nat;
  nextTimerId : nat;
  isPlaying : bool;
  error : option string;
  loadingStatus : string;
  videosReady : bool
}.

Definition with_videoElement (v : video) (s : state) : state :=
  mkState v (maskElement s) (bothVideosReady s) (syncIntervalRef s)
    (intervals s) (nextTimerId s) (isPlaying s) (error s) (loadingStatus s)
    (videosReady s).
Definition with_maskElement (v : video) (s : state) : state :=
  mkState (videoElement s) v (bothVideosReady s) (syncIntervalRef s)
    (intervals s) (nextTimerId s) (isPlaying s) (error s) (loadingStatus s)
    (videosReady s).
Definition with_bothVideosReady (b : bool) (s : state) : state :=
  mkState (videoElement s) (maskElement s) b (syncIntervalRef s)
    (intervals s) (nextTimerId s) (isPlaying s) (error s) (loadingStatus s)
    (videosReady s).
Definition with_syncIntervalRef (r : option nat) (s : state) : state :=
  mkState (videoElement s) (maskElement s) (bothVideosReady s) r
    (intervals s) (nextTimerId s) (isPlaying s) (error s) (loadingStatus s)
    (videosReady s).
Definition with_timers (l : list nat) (n : nat) (s : state) : state :=
  mkState (videoElement s) (maskElement s) (bothVideosReady s)
    (syncIntervalRef s) l n (isPlaying s) (error s) (loadingStatus s)
    (videosReady s).
Definition with_isPlaying (b : bool) (s : state) : state :=
  mkState (videoElement s) (maskElement s) (bothVideosReady s)
    (syncIntervalRef s) (intervals s) (nextTimerId s) b (error s)
    (loadingStatus s) (videosReady s).
Definition with_error (e : option string) (s : state) : state :=
  mkState (videoElement s) (maskElement s) (bothVideosReady s)
    (syncIntervalRef s) (intervals s) (nextTimerId s) (isPlaying s) e
    (loadingStatus s) (videosReady s).
Definition with_loadingStatus (m : string) (s : state) : state :=
  mkState (videoElement s) (maskElement s) (bothVideosReady s)
    (syncIntervalRef s) (intervals s) (nextTimerId s) (isPlaying s) (error s)
    m (videosReady s).
Definition with_videosReady (b : bool) (s : state) : state :=
  mkState (videoElement s) (maskElement s) (bothVideosReady s)
    (syncIntervalRef s) (intervals s) (nextTimerId s) (isPlaying s) (error s)
    (loadingStatus s) b.

Definition element (h : handle) (s : state) : video :=
  match h with Primary => videoElement s | Follower => maskElement s end.

Definition with_element (h : handle) (v : video) (s : state) : state :=
  match h with
  | Primary => with_videoElement v s
  | Follower => with_maskElement v s
  end.

(** ** A state-and-output monad for the handlers *)

Definition M (A : Type) : Type := state -> A * state * list effect.

Definition ret {A : Type} (a : A) : M A := fun s => (a, s, []).

Definition bind {A B : Type} (m : M A) (k : A -> M B) : M B :=
  fun s =>
    let r1 := m s in
    let r2 := k (fst (fst r1)) (snd (fst r1)) in
    (fst (fst r2), snd (fst r2), snd r1 ++ snd r2).

Definition get : M state := fun s => (s, s, []).
Definition modify (f : state -> state) : M unit := fun s => (tt, f s, []).
Definition emit (e : effect) : M unit := fun s => (tt, s, [e]).

Declare Scope handler_scope.
Delimit Scope handler_scope with handler.
Notation "x <- m ;; k" := (bind m (fun x => k))
  (at level 61, m at next level, right associativity) : handler_scope.
Notation "m ;; k" := (bind m (fun _ => k))
  (at level 61, right associativity) : handler_scope.
Local Open Scope handler_scope.

(** The state a handler leaves, and the operations it issued. *)
Definition exec {A : Type} (m : M A) (s : state) : state := snd (fst (m s)).
Definition effects {A : Type} (m : M A) (s : state) : list effect := snd (m s).

(** ** Numbers

    [a > b] on positions. *)
Definition Qgtb (a b : Q) : bool := negb (Qle_bool a b).

(** [time] clamped to [0, duration] when the duration is known, passed
    through otherwise: the timestamp the seek contract of the specification
    names. *)
Definition clamp_to_duration (d : option Q) (time : Q) : Q :=
  match d with
  | None => time
  | Some d =>
      let capped := if Qgtb time d then d else time in
      if Qgtb 0 capped then 0%Q else capped
  end.

(** [time] lies in [0, duration], or the duration is unknown. *)
Definition within_duration (d : option Q) (time : Q) : bool :=
  match d with
  | None => true
  | Some d => Qle_bool 0 time && Qle_bool time d
  end.

(** [floor (log2 a)] for a positive rational [a]. *)
Definition floor_log2 (a : Q) : Z :=
  let n := Qnum a in
  let d := Zpos (Qden a) in
  let e := (Z.log2 n - Z.log2 d)%Z in
  if (d * 2 ^ Z.max e 0 <=? n * 2 ^ Z.max (- e) 0)%Z then e else (e - 1)%Z.

(** The integer nearest to [n / d], ties to even, for positive [n], [d]. *)
Definition round_half_even (n d : Z) : Z :=
  let q := (n / d)%Z in
  match (2 * (n mod d) ?= d)%Z with
  | Lt => q
  | Gt => (q + 1)%Z
  | Eq => if Z.even q then q else (q + 1)%Z
  end.

(** The double nearest to [x], ties to even: 53 significant bits, and no
    bit below 2^-1074. *)
Definition round_to_double (x : Q) : Q :=
  if (Qnum x =? 0)%Z then 0%Q
  else
    let a := Qabs x in
    let q := Z.max (floor_log2 a - 52) (-1074) in
    let m := (a * Qpower 2 (- q))%Q in
    let k := round_half_even (Qnum m) (Zpos (Qden m)) in
    let r := (inject_Z k * Qpower 2 q)%Q in
    if (Qnum x <? 0)%Z then (- r)%Q else r.

(** [a - b] on doubles. *)
Definition double_sub (a b : Q) : Q := round_to_double (a - b).

(** ** Host operations *)

(** [element.currentTime = t]: the element seeks to [t], clamped to its
    own [0, duration]. *)
Definition assign_currentTime (h : handle) (t : Q) : M unit :=
  modify (fun s =>
    with_element h
      (with_currentTime (clamp_to_duration (duration (element h s)) t)
         (element h s)) s) ;;
  emit (SetCurrentTime h t).

(** [element.play()]; [result] is [Some err] when the request is refused
    or fails, in which case the element stays as it was, and [None] when it
    is accepted: the element is no longer paused. *)
Definition media_play (h : handle) (result : option string) : M unit :=
  emit (Play h) ;;
  match result with
  | None => modify (fun s => with_element h (with_paused false (element h s)) s)
  | Some _ => ret tt
  end.

(** [element.pause()] *)
Definition media_pause (h : handle) : M unit :=
  emit (Pause h) ;;
  modify (fun s => with_element h (with_paused true (element h s)) s).

(** [clearInterval(id)]: an unknown id is ignored. *)
Definition clearInterval (id : nat) : M unit :=
  emit (ClearInterval id) ;;
  modify (fun s =>
    with_timers (filter (fun j => negb (j =? id)%nat) (intervals s))
                (nextTimerId s) s).

(** [window.setInterval(syncVideos, 500)]: registers a corrector timer
    under a fresh id and returns the id. *)
Definition setInterval : M nat :=
  s <- get ;;
  let id := nextTimerId s in
  modify (with_timers (intervals s ++ [id]) (S id)) ;;
  emit (SetInterval id) ;;
  ret id.

(** Truthiness of [syncIntervalRef.current : number | null]. *)
Definition truthy (r : option nat) : bool :=
  match r with
  | Some (S _) => true
  | _ => false
  end.

(** ** VideoPlayer callbacks handed to VideoMesh *)

(** [VideoPlayer.handleVideoLoad], passed as [onVideoLoad]. *)
Definition onVideoLoad : M unit :=
  modify (with_loadingStatus "Videos loaded successfully") ;;
  modify (with_error None).

(** [VideoPlayer.handleVideoError], passed as [onVideoError]. *)
Definition onVideoError (msg : string) : M unit :=
  modify (with_error (Some msg)) ;;
  modify (with_loadingStatus "Error loading videos").

(** ** VideoMesh *)

Definition HAVE_FUTURE_DATA : nat := 3.

(** [checkReady], the listener of both elements' [canplay] event. *)
Definition checkReady : M unit :=
  s <- get ;;
  let videoReady := (HAVE_FUTURE_DATA <=? readyState (videoElement s))%nat in
  let maskReady := (HAVE_FUTURE_DATA <=? readyState (maskElement s))%nat in
  if videoReady && maskReady && negb (bothVideosReady s)
  then modify (with_bothVideosReady true)
  else ret tt.

(** The constant [0.1]: the double nearest to one tenth. *)
Definition SYNC_THRESHOLD : Q := 3602879701896397 # 36028797018963968.

(** [syncVideos], the callback of the interval timer. *)
Definition syncVideos : M unit :=
  s <- get ;;
  let mainTime := currentTime (videoElement s) in
  let maskTime := currentTime (maskElement s) in
  let timeDiff := Qabs (double_sub mainTime maskTime) in
  if Qgtb timeDiff SYNC_THRESHOLD
  then assign_currentTime Follower mainTime
  else ret tt.

Definition startSyncMonitoring : M unit :=
  s <- get ;;
  (if truthy (syncIntervalRef s)
   then match syncIntervalRef s with
        | Some id => clearInterval id
        | None => ret tt
        end
   else ret tt) ;;
  id <- setInterval ;;
  modify (with_syncIntervalRef (Some id)).

Definition stopSyncMonitoring : M unit :=
  s <- get ;;
  if truthy (syncIntervalRef s)
  then match syncIntervalRef s with
       | Some id => clearInterval id
       | None => ret tt
       end ;;
       modify (with_syncIntervalRef None)
  else ret tt.

(** [element.error?.message || 'Unknown error'] *)
Definition message_or_unknown (e : option string) : string :=
  match e with
  | Some EmptyString => "Unknown error"
  | Some m => m
  | None => "Unknown error"
  end.

Definition handleVideoLoad : M unit := onVideoLoad.

Definition handleVideoError : M unit :=
  s <- get ;;
  onVideoError
    ("Main video error: " ++ message_or_unknown (mediaError (videoElement s))).

Definition handleMaskError : M unit :=
  s <- get ;;
  onVideoError
    ("Mask video error: " ++ message_or_unknown (mediaError (maskElement s))).

(** How the two [play()] promises of one [playVideo] call settle, and,
    when both are rejected, whether the follower's rejection comes first. *)
Record play_outcome : Type := mkOutcome {
  primary_play : option string;
  follower_play : option string;
  follower_first : bool
}.

Definition started : play_outcome := mkOutcome None None false.

(** The rejection [Promise.all] reports, if any: the one that comes first. *)
Definition rejection (o : play_outcome) : option string :=
  match primary_play o, follower_play o with
  | Some errP, Some errF => Some (if follower_first o then errF else errP)
  | Some errP, None => Some errP
  | None, r => r
  end.

(** [playVideo], with the await taken in one step: the two promises
    settle as [o] says before any other event is handled.  Its two parts,
    which [async_step] runs apart, are [playVideo_requests] and
    [playVideo_continuation]. *)
Definition playVideo (o : play_outcome) : M unit :=
  s <- get ;;
  if negb (bothVideosReady s)
  then ret tt
  else
    let startTime := 0%Q in
    assign_currentTime Primary startTime ;;
    assign_currentTime Follower startTime ;;
    media_play Primary (primary_play o) ;;
    media_play Follower (follower_play o) ;;
    match rejection o with
    | None => startSyncMonitoring
    | Some err => onVideoError ("Playback error: " ++ err)
    end.

Definition pauseVideo : M unit :=
  stopSyncMonitoring ;;
  media_pause Primary ;;
  media_pause Follower.

Definition seekTo (time : Q) : M unit :=
  assign_currentTime Primary time ;;
  assign_currentTime Follower time.

(** ** VideoPlayer *)

(** [checkReadiness], polled every 100ms; it reads the flag VideoMesh
    publishes on the mesh object. *)
Definition checkReadiness : M unit :=
  s <- get ;;
  let ready := bothVideosReady s in
  if negb (Bool.eqb ready (videosReady s))
  then modify (with_videosReady ready) ;;
       (if ready
        then modify (with_loadingStatus "Videos synchronized and ready")
        else ret tt)
  else ret tt.

Definition togglePlayPause (o : play_outcome) : M unit :=
  s <- get ;;
  if videosReady s
  then (if isPlaying s then pauseVideo else playVideo o) ;;
       modify (with_isPlaying (negb (isPlaying s)))
  else ret tt.

Definition seekToTime (time : Q) : M unit :=
  s <- get ;;
  if videosReady s then seekTo time else ret tt.

(** ** The event loop *)

Inductive event : Type :=
| ReadyStateChange (h : handle) (n : nat)
    (* the host moves an element to another readyState *)
| CanPlay (h : handle)                     (* 'canplay' fires *)
| LoadedMetadata                           (* 'loadedmetadata' on the main video *)
| MediaError (h : handle) (msg : string)   (* the element fails; 'error' fires *)
| Progress (h : handle) (dt : Q)           (* playback moves an element on *)
| Tick (id : nat)                          (* interval timer [id] is due *)
| PollReadiness                            (* VideoPlayer's 100ms poll *)
| ClickToggle (o : play_outcome)           (* Play / Pause button *)
| ClickSeek (time : Q)                     (* Start / 5s / 10s buttons *)
| ClickMesh (o : play_outcome)             (* mesh onClick = playVideo *)
| CallPause                                (* mesh.pauseVideo() *)
| CallSeek (time : Q).                     (* mesh.seekTo(time) *)

Definition step (ev : event) : M unit :=
  match ev with
  | ReadyStateChange h n =>
      modify (fun s => with_element h (with_readyState n (element h s)) s)
  | CanPlay _ => checkReady
  | LoadedMetadata => handleVideoLoad
  | MediaError h msg =>
      modify (fun s =>
        with_element h (with_mediaError (Some msg) (element h s)) s) ;;
      match h with
      | Primary => handleVideoError
      | Follower => handleMaskError
      end
  | Progress h dt =>
      s <- get ;;
      if paused (element h s)
      then ret tt
      else modify (with_element h
                     (with_currentTime (currentTime (element h s) + dt)
                        (element h s)))
  | Tick id =>
      s <- get ;;
      if existsb (Nat.eqb id) (intervals s) then syncVideos else ret tt
  | PollReadiness => checkReadiness
  | ClickToggle o => togglePlayPause o
  | ClickSeek time => seekToTime time
  | ClickMesh o => playVideo o
  | CallPause => pauseVideo
  | CallSeek time => seekTo time
  end.

(** The state after a sequence of events. *)
Fixpoint run (evs : list event) (s : state) : state :=
  match evs with
  | [] => s
  | ev :: rest => run rest (exec (step ev) s)
  end.

(** Every event of a run with the operations its handler issued. *)
Fixpoint run_trace (evs : list event) (s : state)
  : list (event * list effect) :=
  match evs with
  | [] => []
  | ev :: rest => (ev, effects (step ev) s) :: run_trace rest (exec (step ev) s)
  end.

(** The component right after its first render, over two elements as the
    host hands them over. *)
Definition init (v m : video) : state :=
  mkState v m false None [] 1 false None "Loading..." false.

(** The effects run after the first render: the eager [checkReady], then the
    eager [handleVideoLoad] when metadata is already there. *)
Definition mount : M unit :=
  checkReady ;;
  s <- get ;;
  if (1 <=? readyState (videoElement s))%nat then handleVideoLoad else ret tt.

Definition mounted (v m : video) : state := exec mount (init v m).

(** A fresh element: nothing loaded, paused at 0. *)
Definition fresh_video (d : option Q) : video := mkVideo 0 0 true None d.

(** ** Vocabulary of the statements *)

(** At most one interval timer runs, and it is the one [syncIntervalRef]
    holds. *)
Definition timer_owned (s : state) : Prop :=
  (0 < nextTimerId s)%nat /\
  match syncIntervalRef s with
  | Some id => (0 < id < nextTimerId s)%nat /\ intervals s = [id]
  | None => intervals s = []
  end.

(** [s'] has the timer reference, the running timers and the id counter
    of [s]. *)
Definition same_timers (s s' : state) : Prop :=
  syncIntervalRef s' = syncIntervalRef s /\
  intervals s' = intervals s /\
  nextTimerId s' = nextTimerId s.

(** Proof steps shared by the frame lemmas: expose a handler's body, then
    split on every test it makes. *)
Ltac unfold_handlers :=
  unfold step, togglePlayPause, seekToTime, checkReadiness, playVideo,
    pauseVideo, seekTo, handleVideoLoad, handleVideoError, handleMaskError,
    onVideoLoad, onVideoError, checkReady, startSyncMonitoring,
    stopSyncMonitoring, media_play, media_pause, assign_currentTime,
    clearInterval, setInterval, bind, get, modify, emit, ret, exec, effects in *.

Ltac split_ifs :=
  repeat match goal with
    | |- context [if ?c then _ else _] => destruct c eqn:?
    | |- context [match ?c with Some _ => _ | None => _ end] => destruct c eqn:?
    end.

(** Both elements are at [HAVE_FUTURE_DATA] or above. *)
Definition both_have_future_data (s : state) : bool :=
  (HAVE_FUTURE_DATA <=? readyState (videoElement s))%nat &&
  (HAVE_FUTURE_DATA <=? readyState (maskElement s))%nat.

(** The events whose handler is [checkReady]. *)
Definition evaluates_gate (ev : event) : bool :=
  match ev with CanPlay _ => true | _ => false end.

Definition is_seek (e : effect) : bool :=
  match e with SetCurrentTime _ _ => true | _ => false end.

Definition is_timer_effect (e : effect) : bool :=
  match e with SetInterval _ | ClearInterval _ => true | _ => false end.

(** The events whose handler calls [playVideo] or [pauseVideo]. *)
Definition is_transport (ev : event) : bool :=
  match ev with
  | ClickToggle _ | ClickMesh _ | CallPause => true
  | _ => false
  end.

(** Does the handler of [ev], run in state [s], call [playVideo]? *)
Definition invokes_playVideo (ev : event) (s : state) : bool :=
  match ev with
  | ClickMesh _ => true
  | ClickToggle _ => videosReady s && negb (isPlaying s)
  | _ => false
  end.

(** No event of the run calls [playVideo]. *)
Fixpoint never_plays (evs : list event) (s : state) : bool :=
  match evs with
  | [] => true
  | ev :: rest =>
      negb (invokes_playVideo ev s) && never_plays rest (exec (step ev) s)
  end.


(** The prefix an error report carries, per element. *)
Definition error_prefix (h : handle) : string :=
  match h with
  | Primary => "Main video error: "
  | Follower => "Mask video error: "
  end.

(** ** The await in [playVideo]

    [playVideo] awaits the two [play()] promises before it starts the
    corrector.  The loop below runs the part up to the await and the part
    after it as separate steps, so that any other event can come between
    them.  A [play()] request is either refused at once ([Some err] in the
    outcome handed to the click) or accepted and pending; a pending promise
    resolves when its element has actually started to play, which a paused
    element does not do, or is rejected by the host.  A continuation runs
    right when its [Promise.all] settles, before the next event. *)

(** [playVideo] up to the [await]; the result tells whether the await was
    reached. *)
Definition playVideo_requests (o : play_outcome) : M bool :=
  s <- get ;;
  if negb (bothVideosReady s)
  then ret false
  else
    let startTime := 0%Q in
    assign_currentTime Primary startTime ;;
    assign_currentTime Follower startTime ;;
    media_play Primary (primary_play o) ;;
    media_play Follower (follower_play o) ;;
    ret true.

(** [playVideo] after the [await]: [settled] is the rejection
    [Promise.all] reports, if any. *)
Definition playVideo_continuation (settled : option string) : M unit :=
  match settled with
  | None => startSyncMonitoring
  | Some err => onVideoError ("Playback error: " ++ err)
  end.

(** [togglePlayPause] with the [playVideo] it calls run up to its await;
    [setIsPlaying] does not wait for it. *)
Definition togglePlayPause_requests (o : play_outcome) : M bool :=
  s <- get ;;
  if videosReady s
  then
    reached <- (if isPlaying s
                then pauseVideo ;; ret false
                else playVideo_requests o) ;;
    modify (with_isPlaying (negb (isPlaying s))) ;;
    ret reached
  else ret false.

(** A [playVideo] call at its await: which of its two promises have
    resolved. *)
Record pending_play : Type := mkPending {
  primary_resolved : bool;
  follower_resolved : bool
}.

(** The component, and the [playVideo] calls waiting at their await, oldest
    first. *)
Record world : Type := mkWorld {
  component : state;
  awaiting : list pending_play
}.

Inductive async_event : Type :=
| Now (ev : event)
    (* an event of the loop above; a handler that calls playVideo runs it
       up to the await *)
| PlaybackStarted (h : handle)
    (* the element has started to play: its pending promises resolve *)
| PlayRejected (h : handle) (err : string).
    (* the host rejects the element's pending promises *)

Definition promise_resolved (h : handle) (p : pending_play) : bool :=
  match h with
  | Primary => primary_resolved p
  | Follower => follower_resolved p
  end.

Definition resolve (h : handle) (p : pending_play) : pending_play :=
  match h with
  | Primary => mkPending true (follower_resolved p)
  | Follower => mkPending (primary_resolved p) true
  end.

Definition both_resolved (p : pending_play) : bool :=
  primary_resolved p && follower_resolved p.

(** [k], once for each of [n] calls. *)
Fixpoint repeat_handler (n : nat) (k : M unit) : M unit :=
  match n with
  | O => ret tt
  | S n' => k ;; repeat_handler n' k
  end.

(** After a handler that may have called [playVideo] up to its await: a
    request refused at once settles [Promise.all] right away and the catch
    runs; otherwise the call joins [awaiting]. *)
Definition settle_or_await (o : play_outcome)
  (r : bool * state * list effect) (waiting : list pending_play)
  : world * list effect :=
  if fst (fst r)
  then
    match rejection o with
    | Some err =>
        let c := playVideo_continuation (Some err) (snd (fst r)) in
        (mkWorld (snd (fst c)) waiting, snd r ++ snd c)
    | None =>
        (mkWorld (snd (fst r)) (waiting ++ [mkPending false false]), snd r)
    end
  else (mkWorld (snd (fst r)) waiting, snd r).

Definition async_step (e : async_event) (w : world) : world * list effect :=
  let s := component w in
  match e with
  | Now (ClickMesh o) =>
      settle_or_await o (playVideo_requests o s) (awaiting w)
  | Now (ClickToggle o) =>
      settle_or_await o (togglePlayPause_requests o s) (awaiting w)
  | Now ev =>
      (mkWorld (exec (step ev) s) (awaiting w), effects (step ev) s)
  | PlaybackStarted h =>
      if paused (element h s)
      then (w, [])
      else
        let marked := map (resolve h) (awaiting w) in
        let due := length (filter both_resolved marked) in
        let c := repeat_handler due (playVideo_continuation None) s in
        (mkWorld (snd (fst c))
           (filter (fun p => negb (both_resolved p)) marked),
         snd c)
  | PlayRejected h err =>
      let hit :=
        length (filter (fun p => negb (promise_resolved h p)) (awaiting w)) in
      let c := repeat_handler hit (playVideo_continuation (Some err)) s in
      (mkWorld (snd (fst c)) (filter (promise_resolved h) (awaiting w)),
       snd c)
  end.

Fixpoint async_run (es : list async_event) (w : world) : world :=
  match es with
  | [] => w
  | e :: rest => async_run rest (fst (async_step e w))
  end.


Definition mounted_world (v m : video) : world := mkWorld (mounted v m) [].


(** The settlements of play promises, as opposed to the events the
    component handles. *)
Definition is_settlement (e : async_event) : bool :=
  match e with
  | Now _ => false
  | PlaybackStarted _ | PlayRejected _ _ => true
  end.





(** ** Scenarios *)

Definition clip : video := fresh_video (Some (20 # 1)).

(** Both elements buffer, [canplay] fires, the poll picks readiness up. *)
Definition until_ready : list event :=
  [ReadyStateChange Primary 4; ReadyStateChange Follower 4; CanPlay Primary;
   PollReadiness].

(** Ready, then Play is pressed and both elements reach 7s. *)
Definition until_playing_at_7 : list event :=
  until_ready ++
  [ClickToggle started; Progress Primary (7 # 1); Progress Follower (7 # 1)].

Definition ready_state : state := run until_ready (mounted clip clip).
Definition playing_at_7 : state := run until_playing_at_7 (mounted clip clip).
Definition paused_at_7 : state := exec (step (ClickToggle started)) playing_at_7.


(** Playing with the follower 0.25s behind the primary. *)
Definition playing_drifted : state :=
  run (until_ready ++
       [ClickToggle started; Progress Primary (10 # 1);
        Progress Follower (39 # 4)]) (mounted clip clip).


(** ** Further vocabulary *)

(** The calls made on the mesh object directly, past the buttons. *)
Definition is_direct_call (ev : event) : bool :=
  match ev with
  | CallPause | CallSeek _ => true
  | _ => false
  end.

(** The readiness flags and the transport state agree: the pair is only
    marked playing once the player saw it ready, the player only sees it
    ready once the mesh does, and a timer is only held by a ready mesh. *)
Definition ready_chain (s : state) : Prop :=
  (isPlaying s = true -> videosReady s = true) /\
  (videosReady s = true -> bothVideosReady s = true) /\
  (syncIntervalRef s <> None -> bothVideosReady s = true).

(** The cleanup of the effect that installs the error and metadata
    listeners, run at unmount.  Listener registration is not part of the
    state, so of the cleanup only the call of [stopSyncMonitoring] shows. *)
Definition cleanup : M unit := stopSyncMonitoring.

(** An event with nothing issued. *)
Definition issued_nothing (p : event * list effect) : Prop := snd p = [].

(** The events whose handler, or whose effect on the host, can move the
    primary's position. *)
Definition may_move_primary (ev : event) : bool :=
  match ev with
  | ClickToggle _ | ClickMesh _ | ClickSeek _ | CallSeek _
  | Progress Primary _ => true
  | _ => false
  end.

(** ** The fragment shader of [VideoShaderMaterial]

    GLSL floats are taken as rationals: rounding, infinities and NaN are
    not modelled, so the statements below need the resolutions to be
    positive wherever the shader divides by them.  [texture2D] is the
    host's; the two sampled colours are inputs of [fragColor]. *)
Module Shader.

Record vec2 : Type := mkVec2 { x : Q; y : Q }.
Record vec3 : Type := mkVec3 { r : Q; g : Q; b : Q }.
Record vec4 : Type := mkVec4 { rgb : vec3; a : Q }.

(** GLSL [mix(p, q, t)] on floats and on [vec3]. *)
Definition mix (p q t : Q) : Q := (p * (1 - t) + q * t)%Q.
Definition mix3 (p q : vec3) (t : Q) : vec3 :=
  mkVec3 (mix (r p) (r q) t) (mix (g p) (g q) t) (mix (b p) (b q) t).

Definition aspectCorrectUV (uv resolution videoRes : vec2) : vec2 :=
  let ratio :=
    mkVec2
      (Qmin ((x resolution / y resolution) / (x videoRes / y videoRes)) 1)
      (Qmin ((y resolution / x resolution) / (y videoRes / x videoRes)) 1) in
  mkVec2 (x uv * x ratio + (1 - x ratio) * (1 # 2))%Q
         (y uv * y ratio + (1 - y ratio) * (1 # 2))%Q.

(** The body of [main] after the two texture reads: the colour written
    to [gl_FragColor]. *)
Definition fragColor (videoColor maskColor : vec4) : vec4 :=
  let mask := r (rgb maskColor) in
  let red := mkVec3 1 0 0 in
  let color := mix3 (rgb videoColor) red mask in
  mkVec4 color 1.

(** [videoWidth || 1920] and [videoHeight || 1080], as the effect that
    fills [uVideoResolution] computes them. *)
Definition or_default (n d : nat) : nat :=
  match n with
  | O => d
  | S _ => n
  end.

Definition videoResolution (videoWidth videoHeight : nat) : vec2 :=
  mkVec2 (inject_Z (Z.of_nat (or_default videoWidth 1920)))
         (inject_Z (Z.of_nat (or_default videoHeight 1080))).

(** A coordinate pair inside the unit square. *)
Definition in_unit_square (uv : vec2) : Prop :=
  (0 <= x uv <= 1)%Q /\ (0 <= y uv <= 1)%Q.

Definition positive (v : vec2) : Prop := (0 < x v)%Q /\ (0 < y v)%Q.

End Shader.

(** ** The [VideoTest] component

    Two plain video elements, each with its own error line, and two
    buttons.  Both refs are taken to be attached. *)
Module VideoTest.

Record state : Type := mkState {
  mainVideoError : option string;
  maskVideoError : option string
}.

Inductive event : Type :=
| MainError (message : option string)   (* onError of the main video *)
| MaskError (message : option string)   (* onError of the mask video *)
| MainLoad                              (* onLoadedMetadata, main *)
| MaskLoad                              (* onLoadedMetadata, mask *)
| ClickPlayBoth
| ClickPauseBoth.

Definition handleMainVideoError (message : option string) (s : state)
  : state :=
  mkState (Some ("Error: " ++ message_or_unknown message)%string)
          (maskVideoError s).

Definition handleMaskVideoError (message : option string) (s : state)
  : state :=
  mkState (mainVideoError s)
          (Some ("Error: " ++ message_or_unknown message)%string).

Definition handleMainVideoLoad (s : state) : state :=
  mkState None (maskVideoError s).

Definition handleMaskVideoLoad (s : state) : state :=
  mkState (mainVideoError s) None.

(** The operations the two buttons issue on the elements. *)
Definition syncPlay : list effect := [Play Primary; Play Follower].
Definition syncPause : list effect := [Pause Primary; Pause Follower].

Definition step (ev : event) (s : state) : state * list effect :=
  match ev with
  | MainError message => (handleMainVideoError message s, [])
  | MaskError message => (handleMaskVideoError message s, [])
  | MainLoad => (handleMainVideoLoad s, [])
  | MaskLoad => (handleMaskVideoLoad s, [])
  | ClickPlayBoth => (s, syncPlay)
  | ClickPauseBoth => (s, syncPause)
  end.

Fixpoint run (evs : list event) (s : state) : state * list effect :=
  match evs with
  | [] => (s, [])
  | ev :: rest =>
      let r1 := step ev s in
      let r2 := run rest (fst r1) in
      (fst r2, snd r1 ++ snd r2)
  end.

Definition init : state := mkState None None.

Definition about_main (ev : event) : bool :=
  match ev with MainError _ | MainLoad => true | _ => false end.

Definition about_mask (ev : event) : bool :=
  match ev with MaskError _ | MaskLoad => true | _ => false end.

End VideoTest.

(** * Properties *)

(** ** Auxiliary facts *)

Lemma Qgtb_true_iff (a b : Q) : Qgtb a b = true <-> (b < a)%Q.
Proof.
  unfold Qgtb. rewrite negb_true_iff. split.
  - intros Hle. apply Qnot_le_lt. intros H.
    apply Qle_bool_iff in H. congruence.
  - intros Hlt. destruct (Qle_bool a b) eqn:E; [|reflexivity].
    apply Qle_bool_iff in E. exfalso. exact (Qlt_not_le _ _ Hlt E).
Qed.

Lemma Qgtb_false_iff (a b : Q) : Qgtb a b = false <-> (a <= b)%Q.
Proof.
  unfold Qgtb. rewrite negb_false_iff. apply Qle_bool_iff.
Qed.

(** The constant is the double nearest to one tenth, and a double. *)
Lemma SYNC_THRESHOLD_is_the_double_of_one_tenth :
  (round_to_double (1 # 10) == SYNC_THRESHOLD)%Q /\
  (round_to_double SYNC_THRESHOLD == SYNC_THRESHOLD)%Q /\
  (1 # 10 < SYNC_THRESHOLD)%Q.
Proof. repeat split. Qed.

Lemma existsb_eqb_In (id : nat) (l : list nat) :
  existsb (Nat.eqb id) l = true <-> In id l.
Proof.
  rewrite existsb_exists. split.
  - intros (x & Hin & Heq). apply Nat.eqb_eq in Heq. now subst.
  - intros Hin. exists id. split; [assumption | apply Nat.eqb_refl].
Qed.

(** What one evaluation of [syncVideos] does, by cases on the drift. *)
Lemma syncVideos_exceeds (s : state) :
  (SYNC_THRESHOLD <
     Qabs (double_sub (currentTime (videoElement s))
             (currentTime (maskElement s))))%Q ->
  syncVideos s =
    (tt,
     with_maskElement
       (with_currentTime
          (clamp_to_duration (duration (maskElement s))
             (currentTime (videoElement s)))
          (maskElement s)) s,
     [SetCurrentTime Follower (currentTime (videoElement s))]).
Proof.
  intros H. apply Qgtb_true_iff in H.
  unfold syncVideos, bind, get. cbn [fst snd]. rewrite H. reflexivity.
Qed.

Lemma syncVideos_within (s : state) :
  (Qabs (double_sub (currentTime (videoElement s))
           (currentTime (maskElement s)))
     <= SYNC_THRESHOLD)%Q ->
  syncVideos s = (tt, s, []).
Proof.
  intros H. apply Qgtb_false_iff in H.
  unfold syncVideos, bind, get. cbn [fst snd]. rewrite H. reflexivity.
Qed.

Lemma step_Tick_active (s : state) (id : nat) :
  In id (intervals s) -> step (Tick id) s = syncVideos s.
Proof.
  intros H. apply existsb_eqb_In in H.
  unfold step, bind, get. cbn [fst snd]. rewrite H.
  destruct (syncVideos s) as [[[] s'] e]. reflexivity.
Qed.

Lemma step_Tick_inactive (s : state) (id : nat) :
  ~ In id (intervals s) -> step (Tick id) s = (tt, s, []).
Proof.
  intros H. unfold step, bind, get. cbn [fst snd].
  destruct (existsb (Nat.eqb id) (intervals s)) eqn:E; [|reflexivity].
  apply existsb_eqb_In in E. contradiction.
Qed.

Lemma syncVideos_cases (s : state) :
  syncVideos s = (tt, s, []) \/
  syncVideos s =
    (tt,
     with_maskElement
       (with_currentTime
          (clamp_to_duration (duration (maskElement s))
             (currentTime (videoElement s)))
          (maskElement s)) s,
     [SetCurrentTime Follower (currentTime (videoElement s))]).
Proof.
  destruct (Qlt_le_dec SYNC_THRESHOLD
              (Qabs (double_sub (currentTime (videoElement s))
                       (currentTime (maskElement s))))) as [Hd|Hd].
  - right. apply syncVideos_exceeds. exact Hd.
  - left. apply syncVideos_within. exact Hd.
Qed.

Lemma step_Tick_cases (id : nat) (s : state) :
  step (Tick id) s = (tt, s, []) \/
  step (Tick id) s =
    (tt,
     with_maskElement
       (with_currentTime
          (clamp_to_duration (duration (maskElement s))
             (currentTime (videoElement s)))
          (maskElement s)) s,
     [SetCurrentTime Follower (currentTime (videoElement s))]).
Proof.
  destruct (in_dec Nat.eq_dec id (intervals s)) as [Hin|Hout].
  - rewrite step_Tick_active by exact Hin. apply syncVideos_cases.
  - left. apply step_Tick_inactive. exact Hout.
Qed.

(** ** The interval timer is owned by [syncIntervalRef] *)

Lemma same_timers_owned (s s' : state) :
  same_timers s s' -> timer_owned s -> timer_owned s'.
Proof.
  intros (Hr & Hi & Hn) H. unfold timer_owned in *.
  rewrite Hr, Hi, Hn. exact H.
Qed.

Lemma same_timers_trans (s1 s2 s3 : state) :
  same_timers s1 s2 -> same_timers s2 s3 -> same_timers s1 s3.
Proof.
  intros (A1 & A2 & A3) (B1 & B2 & B3). repeat split; congruence.
Qed.

Lemma startSyncMonitoring_eq (s : state) :
  timer_owned s ->
  startSyncMonitoring s =
    (tt,
     with_syncIntervalRef (Some (nextTimerId s))
       (with_timers [nextTimerId s] (S (nextTimerId s)) s),
     match syncIntervalRef s with
     | Some id => [ClearInterval id; SetInterval (nextTimerId s)]
     | None => [SetInterval (nextTimerId s)]
     end).
Proof.
  intros (Hn & H). destruct s as [v m b r l n p e ls vr]. cbn in *.
  destruct r as [id|].
  - destruct H as ((Hid & _) & ->). destruct id as [|id]; [lia|].
    unfold startSyncMonitoring, bind, get. cbn.
    rewrite Nat.eqb_refl. reflexivity.
  - subst l. reflexivity.
Qed.

Lemma stopSyncMonitoring_eq (s : state) :
  timer_owned s ->
  stopSyncMonitoring s =
    (tt,
     with_syncIntervalRef None (with_timers [] (nextTimerId s) s),
     match syncIntervalRef s with
     | Some id => [ClearInterval id]
     | None => []
     end).
Proof.
  intros (Hn & H). destruct s as [v m b r l n p e ls vr]. cbn in *.
  destruct r as [id|].
  - destruct H as ((Hid & _) & ->). destruct id as [|id]; [lia|].
    unfold stopSyncMonitoring, bind, get. cbn.
    rewrite Nat.eqb_refl. reflexivity.
  - subst l. reflexivity.
Qed.

Lemma pauseVideo_eq (s : state) :
  timer_owned s ->
  pauseVideo s =
    (tt,
     with_maskElement (with_paused true (maskElement s))
       (with_videoElement (with_paused true (videoElement s))
          (with_syncIntervalRef None (with_timers [] (nextTimerId s) s))),
     match syncIntervalRef s with
     | Some id => [ClearInterval id]
     | None => []
     end ++ [Pause Primary; Pause Follower]).
Proof.
  intros H. unfold pauseVideo, bind.
  rewrite (stopSyncMonitoring_eq H). cbn [fst snd].
  destruct (syncIntervalRef s); reflexivity.
Qed.

Lemma syncVideos_same_timers (s : state) : same_timers s (exec syncVideos s).
Proof.
  unfold exec, syncVideos, bind, get. cbn [fst snd].
  destruct (Qgtb _ _); repeat split.
Qed.

Lemma assign_currentTime_same_timers (h : handle) (t : Q) (s : state) :
  same_timers s (exec (assign_currentTime h t) s).
Proof. destruct h; repeat split. Qed.

Lemma media_play_same_timers (h : handle) (r : option string) (s : state) :
  same_timers s (exec (media_play h r) s).
Proof. destruct h, r; repeat split. Qed.

Lemma onVideoError_same_timers (msg : string) (s : state) :
  same_timers s (exec (onVideoError msg) s).
Proof. repeat split. Qed.

Lemma with_isPlaying_same_timers (b : bool) (s : state) :
  same_timers s (with_isPlaying b s).
Proof. repeat split. Qed.

Lemma startSyncMonitoring_timer_owned (s : state) :
  timer_owned s -> timer_owned (exec startSyncMonitoring s).
Proof.
  intros H. unfold exec. rewrite (startSyncMonitoring_eq H).
  destruct H as (Hn & _). unfold timer_owned. cbn. repeat split; lia.
Qed.

Lemma pauseVideo_timer_owned (s : state) :
  timer_owned s -> timer_owned (exec pauseVideo s).
Proof.
  intros H. unfold exec. rewrite (pauseVideo_eq H).
  unfold timer_owned. cbn. split; [apply H | reflexivity].
Qed.

(** The timers are untouched while [playVideo] resets both positions and
    issues both [play()] requests. *)
Lemma playVideo_issued_same_timers (o : play_outcome) (s : state) :
  same_timers s
    (exec (media_play Follower (follower_play o))
       (exec (media_play Primary (primary_play o))
          (exec (assign_currentTime Follower 0)
             (exec (assign_currentTime Primary 0) s)))).
Proof.
  eapply same_timers_trans; [apply assign_currentTime_same_timers|].
  eapply same_timers_trans; [apply assign_currentTime_same_timers|].
  eapply same_timers_trans; [apply media_play_same_timers|].
  apply media_play_same_timers.
Qed.

Lemma playVideo_timer_owned (o : play_outcome) (s : state) :
  timer_owned s -> timer_owned (exec (playVideo o) s).
Proof.
  intros H. unfold exec, playVideo, bind, get. cbn [fst snd].
  destruct (negb (bothVideosReady s)); [exact H|].
  cbn [fst snd].
  pose proof (same_timers_owned (playVideo_issued_same_timers o s) H) as H'.
  unfold exec in H'.
  destruct (rejection o) as [err|].
  - exact (same_timers_owned (onVideoError_same_timers _ _) H').
  - exact (startSyncMonitoring_timer_owned H').
Qed.

Lemma checkReady_same_timers (s : state) : same_timers s (exec checkReady s).
Proof.
  unfold exec, checkReady, bind, get. cbn [fst snd].
  destruct (_ && _); repeat split.
Qed.

(** Only the transport handlers touch the timer. *)
Lemma step_same_timers (ev : event) (s : state) :
  is_transport ev = false -> same_timers s (exec (step ev) s).
Proof.
  intros Hev.
  destruct ev as [h n|h| |h msg|h dt|id| |o|time|o| |time];
    try discriminate Hev.
  - destruct h; repeat split.
  - apply checkReady_same_timers.
  - repeat split.
  - destruct h; repeat split.
  - unfold_handlers. cbn [fst snd]. destruct h; split_ifs; repeat split.
  - unfold step, bind, get, exec. cbn [fst snd].
    destruct (existsb _ _); [|repeat split].
    pose proof (syncVideos_same_timers s) as Hs. unfold exec in Hs.
    destruct (syncVideos s) as [[[] s'] e]. exact Hs.
  - unfold_handlers. cbn [fst snd]. split_ifs; repeat split.
  - unfold_handlers. cbn [fst snd]. split_ifs; repeat split.
  - repeat split.
Qed.

Lemma togglePlayPause_exec (o : play_outcome) (s : state) :
  exec (togglePlayPause o) s =
    if videosReady s
    then with_isPlaying (negb (isPlaying s))
           (if isPlaying s then exec pauseVideo s else exec (playVideo o) s)
    else s.
Proof.
  unfold togglePlayPause, exec, bind, get. cbn [fst snd].
  destruct (videosReady s); [|reflexivity].
  destruct (isPlaying s); reflexivity.
Qed.

Lemma step_timer_owned (ev : event) (s : state) :
  timer_owned s -> timer_owned (exec (step ev) s).
Proof.
  intros H. destruct (is_transport ev) eqn:Hev.
  - destruct ev; try discriminate Hev; cbn [step].
    + rewrite togglePlayPause_exec.
      destruct (videosReady s); [|exact H].
      apply (same_timers_owned (with_isPlaying_same_timers _ _)).
      destruct (isPlaying s).
      * exact (pauseVideo_timer_owned H).
      * exact (playVideo_timer_owned o H).
    + exact (playVideo_timer_owned o H).
    + exact (pauseVideo_timer_owned H).
  - exact (same_timers_owned (step_same_timers ev s Hev) H).
Qed.

Lemma run_timer_owned (evs : list event) (s : state) :
  timer_owned s -> timer_owned (run evs s).
Proof.
  revert s. induction evs as [|ev evs IH]; intros s H; [exact H|].
  cbn. apply IH. exact (step_timer_owned ev H).
Qed.

Lemma mounted_timer_owned (v m : video) : timer_owned (mounted v m).
Proof.
  assert (H0 : timer_owned (init v m)).
  { unfold timer_owned. cbn. split; [lia | reflexivity]. }
  pose proof (same_timers_owned (checkReady_same_timers _) H0) as H1.
  unfold mounted, mount, exec, bind, get in *. cbn [fst snd].
  destruct (1 <=? _)%nat; [|exact H1].
  apply (same_timers_owned (s:=snd (fst (checkReady (init v m)))));
    [repeat split | exact H1].
Qed.

(** ** Starting playback *)

Lemma clamp_within (d : option Q) (time : Q) :
  within_duration d time = true -> clamp_to_duration d time = time.
Proof.
  destruct d as [d|]; [|reflexivity]. cbn [within_duration].
  intros H. apply andb_true_iff in H. destruct H as [H0 Hd].
  unfold clamp_to_duration, Qgtb. rewrite Hd. cbn [negb]. rewrite H0.
  reflexivity.
Qed.

Lemma clamp_to_duration_zero (d : option Q) : clamp_to_duration d 0 = 0%Q.
Proof.
  destruct d as [d|]; [|reflexivity]. unfold clamp_to_duration.
  destruct (Qgtb 0 d) eqn:E; [rewrite E|]; reflexivity.
Qed.

Lemma playVideo_not_ready (o : play_outcome) (s : state) :
  bothVideosReady s = false -> playVideo o s = (tt, s, []).
Proof.
  intros H. unfold playVideo, bind, get. cbn [fst snd]. rewrite H. reflexivity.
Qed.

(** What a [playVideo] call that passes the guard issues and leaves. *)
Lemma playVideo_ready (s : state) (o : play_outcome) :
  bothVideosReady s = true ->
  exists rest,
    effects (playVideo o) s =
      [SetCurrentTime Primary 0; SetCurrentTime Follower 0;
       Play Primary; Play Follower] ++ rest /\
    forallb is_timer_effect rest = true /\
    currentTime (videoElement (exec (playVideo o) s)) = 0%Q /\
    currentTime (maskElement (exec (playVideo o) s)) = 0%Q.
Proof.
  destruct o as [pp fp ff]. intros Hready.
  destruct s as [v m b r l n p e ls vr]. cbn in Hready. subst b.
  destruct pp as [e1|], fp as [e2|], r as [[|id]|];
    cbn -[clamp_to_duration];
    (eexists; split; [reflexivity|]); (split; [reflexivity|]);
    split; apply clamp_to_duration_zero.
Qed.

(** C1, as stated, fails on resume.  After a first play has reached 7s and
    the pair was paused there, [playVideo] does not restart both elements
    from the primary's current position: the positions it writes are 0. *)
Lemma playVideo_resume_restarts_at_zero :
  isPlaying paused_at_7 = false /\
  paused (videoElement paused_at_7) = true /\
  bothVideosReady paused_at_7 = true /\
  currentTime (videoElement paused_at_7) = (7 # 1)%Q /\
  ~ (exists rest,
       effects (playVideo started) paused_at_7 =
         SetCurrentTime Primary (currentTime (videoElement paused_at_7))
         :: SetCurrentTime Follower (currentTime (videoElement paused_at_7))
         :: Play Primary :: Play Follower :: rest) /\
  ~ (currentTime (videoElement (exec (playVideo started) paused_at_7))
       == currentTime (videoElement paused_at_7))%Q.
Proof.
  repeat split; try reflexivity.
  - intros (rest & H). vm_compute in H. discriminate H.
  - vm_compute. discriminate.
Qed.

(** C1, amended: every call of [playVideo] that passes the readiness guard
    writes position 0 to the primary and then to the follower, on a first
    play and on a resume alike, then issues [play()] on the primary and then
    on the follower; whatever it issues afterwards are timer operations, and
    both elements are left at position 0. *)
Theorem playVideo_resets_to_zero_then_plays :
  forall (s : state) (o : play_outcome),
    bothVideosReady s = true ->
    exists rest,
      effects (playVideo o) s =
        [SetCurrentTime Primary 0; SetCurrentTime Follower 0;
         Play Primary; Play Follower] ++ rest /\
      forallb is_timer_effect rest = true /\
      currentTime (videoElement (exec (playVideo o) s)) = 0%Q /\
      currentTime (maskElement (exec (playVideo o) s)) = 0%Q.
Proof.
  intros s o Hready. exact (playVideo_ready s o Hready).
Qed.

Lemma playVideo_resets_to_zero_then_plays_witness :
  exists rest,
    effects (playVideo started) paused_at_7 =
      [SetCurrentTime Primary 0; SetCurrentTime Follower 0;
       Play Primary; Play Follower] ++ rest /\
    forallb is_timer_effect rest = true /\
    currentTime (videoElement (exec (playVideo started) paused_at_7)) = 0%Q /\
    currentTime (maskElement (exec (playVideo started) paused_at_7)) = 0%Q.
Proof.
  apply (playVideo_resets_to_zero_then_plays paused_at_7 started).
  reflexivity.
Defined.

(** ** The readiness flag *)

Lemma checkReady_flag (s : state) :
  bothVideosReady (exec checkReady s) =
    bothVideosReady s || both_have_future_data s.
Proof.
  unfold exec, checkReady, both_have_future_data, bind, get. cbn [fst snd].
  destruct (HAVE_FUTURE_DATA <=? readyState (videoElement s))%nat,
    (HAVE_FUTURE_DATA <=? readyState (maskElement s))%nat,
    (bothVideosReady s) eqn:E; cbn; try rewrite E; reflexivity.
Qed.

Lemma syncVideos_flag (s : state) :
  bothVideosReady (exec syncVideos s) = bothVideosReady s.
Proof.
  unfold exec, syncVideos, bind, get. cbn [fst snd].
  destruct (Qgtb _ _); reflexivity.
Qed.

Lemma playVideo_flag (o : play_outcome) (s : state) :
  bothVideosReady (exec (playVideo o) s) = bothVideosReady s.
Proof.
  destruct s as [v m b r l n p e ls vr], o as [[e1|] [e2|] ff], b;
    try reflexivity; destruct r as [[|id]|]; reflexivity.
Qed.

Lemma pauseVideo_flag (s : state) :
  bothVideosReady (exec pauseVideo s) = bothVideosReady s.
Proof.
  destruct s as [v m b r l n p e ls vr], r as [[|id]|]; reflexivity.
Qed.

(** Only a [canplay] event changes the flag, and only upwards. *)
Lemma step_flag (ev : event) (s : state) :
  bothVideosReady (exec (step ev) s) =
    bothVideosReady s || (evaluates_gate ev && both_have_future_data s).
Proof.
  destruct ev as [h n|h| |h msg|h dt|id| |o|time|o| |time]; cbn [evaluates_gate andb];
    rewrite ?orb_false_r.
  - destruct h; reflexivity.
  - apply checkReady_flag.
  - reflexivity.
  - destruct h; reflexivity.
  - unfold_handlers. cbn [fst snd]. destruct h; split_ifs; cbn; congruence.
  - unfold step, bind, get, exec. cbn [fst snd].
    destruct (existsb _ _); [|reflexivity].
    pose proof (syncVideos_flag s) as Hs. unfold exec in Hs.
    destruct (syncVideos s) as [[[] s'] e]. exact Hs.
  - unfold_handlers. cbn [fst snd]. split_ifs; cbn; congruence.
  - cbn [step]. rewrite togglePlayPause_exec.
    destruct (videosReady s); [|reflexivity].
    destruct (isPlaying s); cbn [bothVideosReady with_isPlaying].
    + apply pauseVideo_flag.
    + apply playVideo_flag.
  - unfold_handlers. cbn [fst snd]. split_ifs; cbn; congruence.
  - apply playVideo_flag.
  - apply pauseVideo_flag.
  - reflexivity.
Qed.

Lemma run_flag_latched (evs : list event) (s : state) :
  bothVideosReady s = true -> bothVideosReady (run evs s) = true.
Proof.
  revert s. induction evs as [|ev evs IH]; intros s H; [exact H|].
  cbn. apply IH. rewrite step_flag, H. reflexivity.
Qed.

(** C2, as stated, fails.  Both elements reach [HAVE_ENOUGH_DATA] and
    [canplay] fires, so the flag is set; then the mask element fails.  The
    flag is still set although one element is in an error state. *)
Lemma gate_stays_ready_after_error :
  let s := run [ReadyStateChange Primary 4; ReadyStateChange Follower 4;
                CanPlay Primary; MediaError Follower "decode failed"]
             (mounted clip clip) in
  mediaError (maskElement s) = Some "decode failed"%string /\
  bothVideosReady s = true /\
  ~ (bothVideosReady s = true <->
     both_have_future_data s = true /\
     mediaError (videoElement s) = None /\
     mediaError (maskElement s) = None).
Proof.
  cbv zeta. repeat split.
  intros [H _]. specialize (H eq_refl). destruct H as (_ & _ & H).
  vm_compute in H. discriminate H.
Qed.

(** C2, amended: the pair-ready flag is set exactly when some evaluation of
    the gate (a [canplay] event of either element, or the eager evaluation
    at mount) finds both elements at [HAVE_FUTURE_DATA] or above; error
    states are not consulted, and the flag is never cleared afterwards. *)
Theorem gate_ready_iff_some_evaluation_found_both_ready :
  forall (v m : video) (evs : list event),
    (bothVideosReady (mounted v m) =
       (HAVE_FUTURE_DATA <=? readyState v)%nat &&
       (HAVE_FUTURE_DATA <=? readyState m)%nat) /\
    (bothVideosReady (run evs (mounted v m)) = true <->
     bothVideosReady (mounted v m) = true \/
     exists pre h post,
       evs = pre ++ CanPlay h :: post /\
       both_have_future_data (run pre (mounted v m)) = true).
Proof.
  intros v m evs. split.
  { transitivity (bothVideosReady (exec checkReady (init v m))).
    - unfold mounted, mount, exec, bind, get. cbn [fst snd].
      destruct (1 <=? _)%nat; reflexivity.
    - rewrite checkReady_flag. reflexivity. }
  generalize (mounted v m) as s. clear v m. intros s. revert s.
  induction evs as [|ev evs IH]; intros s.
  - cbn. split; [auto|]. intros [H|(pre & h & post & H & _)]; [exact H|].
    destruct pre; discriminate H.
  - cbn [run]. rewrite IH, step_flag. split.
    + intros [H|(pre & h & post & -> & H)].
      * apply orb_true_iff in H. destruct H as [H|H]; [left; exact H|].
        apply andb_true_iff in H. destruct H as [Hev Hb].
        destruct ev; try discriminate Hev.
        right. exists [], h, evs. split; [reflexivity | exact Hb].
      * right. exists (ev :: pre), h, post. split; [reflexivity | exact H].
    + intros [H|(pre & h & post & Heq & H)].
      * left. rewrite H. reflexivity.
      * destruct pre as [|ev' pre].
        -- cbn in Heq. injection Heq as -> ->. cbn in H.
           left. cbn. rewrite H. apply orb_true_r.
        -- cbn in Heq. injection Heq as -> ->.
           right. exists pre, h, post. split; [reflexivity | exact H].
Qed.

(** C10: once [bothVideosReady] is true it stays true under every sequence
    of events: readiness regressions, element errors and all transport
    operations included. *)
Theorem bothVideosReady_latches :
  forall (s : state) (evs : list event),
    bothVideosReady s = true ->
    bothVideosReady (run evs s) = true /\
    Forall (fun n => bothVideosReady (run (firstn n evs) s) = true)
      (seq 0 (S (length evs))).
Proof.
  intros s evs H. split; [apply run_flag_latched; exact H|].
  apply Forall_forall. intros n _. apply run_flag_latched. exact H.
Qed.

Lemma bothVideosReady_latches_witness :
  bothVideosReady
    (run [ReadyStateChange Follower 1; MediaError Primary "network";
          CallPause; ReadyStateChange Primary 0; CanPlay Follower]
       ready_state) = true.
Proof.
  apply (bothVideosReady_latches ready_state
           [ReadyStateChange Follower 1; MediaError Primary "network";
            CallPause; ReadyStateChange Primary 0; CanPlay Follower]).
  reflexivity.
Defined.

(** ** The drift corrector *)



(** C7: a tick of the corrector never writes the primary element: the
    primary is left exactly as it was, no write to its position is issued,
    and every operation a tick issues is a write to the follower's
    position. *)
Theorem tick_never_writes_primary :
  forall (s : state) (id : nat),
    videoElement (exec (step (Tick id)) s) = videoElement s /\
    (forall t, ~ In (SetCurrentTime Primary t) (effects (step (Tick id)) s)) /\
    (forall e, In e (effects (step (Tick id)) s) ->
               exists t, e = SetCurrentTime Follower t).
Proof.
  intros s id. unfold exec, effects.
  destruct (step_Tick_cases id s) as [-> | ->]; cbn [fst snd].
  - split; [reflexivity|]. split; [intros t []|intros e []].
  - split; [reflexivity|]. split.
    + intros t [H|[]]. discriminate H.
    + intros e [<-|[]]. eexists. reflexivity.
Qed.

(** ** Element errors *)

(** C4, as stated, fails.  The pair is playing with the corrector timer
    running when the mask element fails.  Afterwards the timer still runs,
    the primary element is not paused, the pair still counts as playing,
    and the text handed to the presentation layer is not the element's
    message as it was. *)
Lemma mask_error_while_playing_halts_nothing :
  let s := playing_at_7 in
  let s' := exec (step (MediaError Follower "decode failed")) s in
  isPlaying s = true /\
  intervals s = [1%nat] /\
  intervals s' = [1%nat] /\
  syncIntervalRef s' = Some 1%nat /\
  paused (videoElement s') = false /\
  isPlaying s' = true /\
  error s' = Some "Mask video error: decode failed"%string /\
  ~ (intervals s' = [] /\
     error s' = Some "decode failed"%string /\
     paused (videoElement s') = true).
Proof.
  cbv zeta. repeat split.
  intros (H & _). vm_compute in H. discriminate H.
Qed.

(** C4, amended: when either element reports an error, the presentation
    layer receives the element's message behind a prefix naming the element
    (with 'Unknown error' in place of an empty message) and the status
    'Error loading videos'.  Nothing else happens: no operation is issued
    on either element or on the timer, so a running corrector keeps
    running, neither element is paused, and [isPlaying] is unchanged. *)
Theorem element_error_is_reported_and_nothing_is_halted :
  forall (s : state) (h : handle) (msg : string),
    let s' := exec (step (MediaError h msg)) s in
    error s' = Some (error_prefix h ++ message_or_unknown (Some msg))%string /\
    loadingStatus s' = "Error loading videos"%string /\
    effects (step (MediaError h msg)) s = [] /\
    same_timers s s' /\
    paused (videoElement s') = paused (videoElement s) /\
    paused (maskElement s') = paused (maskElement s) /\
    isPlaying s' = isPlaying s.
Proof.
  intros s h msg. destruct h; cbv zeta; repeat split.
Qed.

(** ** Seeking *)

(** C5, as stated, fails.  While the pair plays with the corrector running,
    [seekTo 5] moves both elements to 5s, inside the clip; the elements
    then drift 0.3s apart, and the first tick after the seek corrects the
    follower: drift correction was not suspended for that tick. *)
Lemma seekTo_does_not_suspend_corrector :
  let s := exec (seekTo (5 # 1)) playing_at_7 in
  let later :=
    run [Progress Primary (4 # 10); Progress Follower (1 # 10)] s in
  isPlaying playing_at_7 = true /\
  intervals playing_at_7 = [1%nat] /\
  currentTime (videoElement s) =
    clamp_to_duration (duration (videoElement playing_at_7)) (5 # 1) /\
  currentTime (maskElement s) =
    clamp_to_duration (duration (maskElement playing_at_7)) (5 # 1) /\
  existsb is_seek (effects (step (Tick 1)) later) = true /\
  ~ (effects (step (Tick 1)) later = []).
Proof.
  cbv zeta. repeat split.
  intros H. vm_compute in H. discriminate H.
Qed.

(** C5, amended: [seekTo time] writes the same timestamp to the primary
    and then to the follower, and each element's position is set to that
    timestamp clamped to [0, duration] when its duration is known; so both
    positions are the same clamped timestamp when the two durations agree.
    It issues nothing else and leaves the timer as it is: drift correction
    is not suspended, and the next tick of a running corrector performs the
    usual check on the state it finds. *)
Theorem seekTo_writes_same_time_and_leaves_corrector :
  forall (s : state) (time : Q),
    let s' := exec (seekTo time) s in
    effects (seekTo time) s =
      [SetCurrentTime Primary time; SetCurrentTime Follower time] /\
    currentTime (videoElement s')
      = clamp_to_duration (duration (videoElement s)) time /\
    currentTime (maskElement s')
      = clamp_to_duration (duration (maskElement s)) time /\
    (duration (videoElement s) = duration (maskElement s) ->
     currentTime (videoElement s') = currentTime (maskElement s')) /\
    same_timers s s' /\
    (forall id, In id (intervals s) -> step (Tick id) s' = syncVideos s').
Proof.
  intros s time. cbv zeta.
  split; [reflexivity|]. split; [reflexivity|]. split; [reflexivity|].
  split; [|split].
  - intros Hd. cbn. rewrite Hd. reflexivity.
  - repeat split.
  - intros id Hid. apply step_Tick_active. exact Hid.
Qed.

(** ** Pausing *)

Lemma timer_owned_no_ref (s : state) :
  timer_owned s -> syncIntervalRef s = None -> intervals s = [].
Proof.
  intros (_ & H) Hr. rewrite Hr in H. exact H.
Qed.


Lemma pauseVideo_clears_ref (s : state) :
  timer_owned s -> syncIntervalRef (exec pauseVideo s) = None.
Proof.
  intros H. unfold exec. rewrite (pauseVideo_eq H). reflexivity.
Qed.


(** ** Repeated transport calls *)

Lemma pauseVideo_isPlaying (s : state) :
  isPlaying (exec pauseVideo s) = isPlaying s.
Proof.
  destruct s as [v m b r l n p e ls vr], r as [[|id]|]; reflexivity.
Qed.

Lemma playVideo_isPlaying (o : play_outcome) (s : state) :
  isPlaying (exec (playVideo o) s) = isPlaying s.
Proof.
  destruct s as [v m b r l n p e ls vr], o as [[e1|] [e2|] ff], b;
    try reflexivity; destruct r as [[|id]|]; reflexivity.
Qed.

Lemma pauseVideo_twice (s : state) :
  exec pauseVideo (exec pauseVideo s) = exec pauseVideo s /\
  effects pauseVideo (exec pauseVideo s) = [Pause Primary; Pause Follower].
Proof.
  destruct s as [v m b r l n p e ls vr], r as [[|id]|]; split; reflexivity.
Qed.

Lemma playVideo_exec (o : play_outcome) (s : state) :
  exec (playVideo o) s =
    if negb (bothVideosReady s)
    then s
    else
      exec match rejection o with
           | None => startSyncMonitoring
           | Some err => onVideoError ("Playback error: " ++ err)
           end
        (exec (media_play Follower (follower_play o))
           (exec (media_play Primary (primary_play o))
              (exec (assign_currentTime Follower 0)
                 (exec (assign_currentTime Primary 0) s)))).
Proof.
  unfold exec, playVideo, bind, get. cbn [fst snd].
  destruct (negb (bothVideosReady s)); reflexivity.
Qed.

Lemma playVideo_started_timers (s : state) :
  timer_owned s ->
  bothVideosReady s = true ->
  intervals (exec (playVideo started) s) = [nextTimerId s] /\
  syncIntervalRef (exec (playVideo started) s) = Some (nextTimerId s).
Proof.
  intros Hown Hready.
  pose proof (playVideo_issued_same_timers started s) as Hsame.
  pose proof (same_timers_owned Hsame Hown) as Hown'.
  destruct Hsame as (_ & _ & Hn).
  rewrite playVideo_exec, Hready. cbn [negb].
  change (rejection started) with (@None string). cbv iota.
  set (s1 := exec (media_play Follower (follower_play started)) _) in *.
  clearbody s1. unfold exec at 1 2.
  rewrite (startSyncMonitoring_eq Hown'). cbn [fst snd].
  cbn [intervals syncIntervalRef with_syncIntervalRef with_timers].
  rewrite Hn. split; reflexivity.
Qed.

(** C8, as stated, fails for play.  The pair plays at 7s with the corrector
    running; a click on the mesh calls [playVideo] again, which writes
    position 0 to both elements: a seek and a position reset. *)
Lemma playVideo_while_playing_resets_positions :
  let s := playing_at_7 in
  let s' := exec (step (ClickMesh started)) s in
  isPlaying s = true /\
  paused (videoElement s) = false /\
  intervals s = [1%nat] /\
  currentTime (videoElement s) = (7 # 1)%Q /\
  currentTime (videoElement s') = 0%Q /\
  effects (step (ClickMesh started)) s =
    [SetCurrentTime Primary 0; SetCurrentTime Follower 0;
     Play Primary; Play Follower; ClearInterval 1; SetInterval 2] /\
  ~ (existsb is_seek (effects (step (ClickMesh started)) s) = false /\
     (currentTime (videoElement s') == currentTime (videoElement s))%Q).
Proof.
  cbv zeta. repeat split.
  intros (H & _). vm_compute in H. discriminate H.
Qed.

(** C8, amended.  A second [pauseVideo] right after a first one leaves the
    state as the first call left it and issues only the two pause requests
    again: no seek, no timer operation.  [playVideo] on a pair that is
    already playing is not a no-op: it writes position 0 to both elements
    and issues [play()] on both again; what it issues besides are timer
    operations, after which at most one timer runs (exactly one fresh timer
    when playback starts).  Neither call changes [isPlaying]. *)
Theorem repeated_pause_is_idempotent_repeated_play_restarts :
  forall (s : state) (o : play_outcome),
    timer_owned s ->
    bothVideosReady s = true ->
    (exec pauseVideo (exec pauseVideo s) = exec pauseVideo s /\
     effects pauseVideo (exec pauseVideo s) = [Pause Primary; Pause Follower] /\
     isPlaying (exec pauseVideo s) = isPlaying s) /\
    ((exists rest,
        effects (playVideo o) s =
          [SetCurrentTime Primary 0; SetCurrentTime Follower 0;
           Play Primary; Play Follower] ++ rest /\
        forallb is_timer_effect rest = true) /\
     (length (intervals (exec (playVideo o) s)) <= 1)%nat /\
     (o = started ->
      intervals (exec (playVideo o) s) = [nextTimerId s] /\
      syncIntervalRef (exec (playVideo o) s) = Some (nextTimerId s)) /\
     isPlaying (exec (playVideo o) s) = isPlaying s).
Proof.
  intros s o Hown Hready. split.
  - destruct (pauseVideo_twice s) as [H1 H2].
    repeat split; [exact H1 | exact H2 | apply pauseVideo_isPlaying].
  - split; [|split; [|split]].
    + destruct (playVideo_ready s o Hready) as (rest & H1 & H2 & _). exists rest. split; assumption.
    + pose proof (playVideo_timer_owned o Hown) as (_ & H).
      destruct (syncIntervalRef (exec (playVideo o) s)) as [id|].
      * destruct H as (_ & ->). cbn. lia.
      * rewrite H. cbn. lia.
    + intros ->. apply playVideo_started_timers; assumption.
    + apply playVideo_isPlaying.
Qed.

Lemma repeated_pause_is_idempotent_repeated_play_restarts_witness :
  exec pauseVideo (exec pauseVideo playing_at_7) = exec pauseVideo playing_at_7 /\
  intervals (exec (playVideo started) playing_at_7) = [2%nat].
Proof.
  assert (Hown : timer_owned playing_at_7).
  { unfold timer_owned. vm_compute. repeat split; lia. }
  pose proof
    (repeated_pause_is_idempotent_repeated_play_restarts
       (s:=playing_at_7) started Hown eq_refl)
    as ((Hpause & _) & (_ & _ & Hplay & _)).
  split; [exact Hpause | exact (proj1 (Hplay eq_refl))].
Defined.

(** ** Starting and stopping the corrector *)

(** C9, as stated, fails for start.  A second [startSyncMonitoring] clears
    the timer the first one registered and registers another: the state
    after the second start is not the state after the first. *)
Lemma startSyncMonitoring_twice_replaces_timer :
  let s1 := exec startSyncMonitoring ready_state in
  let s2 := exec startSyncMonitoring s1 in
  syncIntervalRef s1 = Some 1%nat /\
  syncIntervalRef s2 = Some 2%nat /\
  effects startSyncMonitoring s1 = [ClearInterval 1; SetInterval 2] /\
  s2 <> s1.
Proof.
  cbv zeta. repeat split.
  intros H. apply (f_equal syncIntervalRef) in H. vm_compute in H.
  discriminate H.
Qed.

(** C9, amended.  A second [startSyncMonitoring] without a stop in between
    leaves exactly one timer running, the one [syncIntervalRef] holds, but
    it is not a no-op: it clears the timer of the first start and registers
    a fresh one, so the state after the second start is the state after the
    first with that timer replaced.  A second [stopSyncMonitoring] is a
    no-op: it issues nothing and changes nothing. *)
Theorem start_twice_replaces_the_timer_stop_twice_is_noop :
  forall s : state,
    timer_owned s ->
    let n := nextTimerId s in
    let s1 := exec startSyncMonitoring s in
    let s2 := exec startSyncMonitoring s1 in
    (intervals s1 = [n] /\ syncIntervalRef s1 = Some n) /\
    (effects startSyncMonitoring s1 = [ClearInterval n; SetInterval (S n)] /\
     intervals s2 = [S n] /\
     syncIntervalRef s2 = Some (S n) /\
     s2 = with_syncIntervalRef (Some (S n)) (with_timers [S n] (S (S n)) s1)) /\
    (exec stopSyncMonitoring (exec stopSyncMonitoring s)
       = exec stopSyncMonitoring s /\
     effects stopSyncMonitoring (exec stopSyncMonitoring s) = []).
Proof.
  intros s Hown n s1 s2.
  pose proof (startSyncMonitoring_timer_owned Hown) as Hown1.
  assert (E1 : s1 = with_syncIntervalRef (Some n) (with_timers [n] (S n) s)).
  { subst s1. unfold exec. rewrite (startSyncMonitoring_eq Hown). reflexivity. }
  assert (E2 : startSyncMonitoring s1 =
                 (tt,
                  with_syncIntervalRef (Some (S n))
                    (with_timers [S n] (S (S n)) s1),
                  [ClearInterval n; SetInterval (S n)])).
  { fold s1 in Hown1. rewrite (startSyncMonitoring_eq Hown1).
    rewrite E1. reflexivity. }
  split; [|split].
  - rewrite E1. split; reflexivity.
  - subst s2. unfold exec, effects. rewrite E2. repeat split.
  - unfold exec, effects. rewrite (stopSyncMonitoring_eq Hown). cbn [fst snd].
    split; reflexivity.
Qed.

Lemma start_twice_replaces_the_timer_stop_twice_is_noop_witness :
  intervals (exec startSyncMonitoring (exec startSyncMonitoring ready_state))
    = [2%nat] /\
  effects stopSyncMonitoring (exec stopSyncMonitoring playing_at_7) = [].
Proof.
  assert (Hr : timer_owned ready_state).
  { unfold timer_owned. vm_compute. split; [lia | reflexivity]. }
  assert (Hp : timer_owned playing_at_7).
  { unfold timer_owned. vm_compute. repeat split; lia. }
  split.
  - exact (proj1 (proj2 (proj1 (proj2
             (start_twice_replaces_the_timer_stop_twice_is_noop Hr))))).
  - exact (proj2 (proj2 (proj2
             (start_twice_replaces_the_timer_stop_twice_is_noop Hp)))).
Defined.

(** * Further properties of the controller *)

(** ** Timers *)

(** ** Readiness and the transport state *)

Lemma playVideo_videosReady (o : play_outcome) (s : state) :
  videosReady (exec (playVideo o) s) = videosReady s.
Proof.
  destruct s as [v m b r l n p e ls vr], o as [[e1|] [e2|] ff], b;
    try reflexivity; destruct r as [[|id]|]; reflexivity.
Qed.

Lemma pauseVideo_videosReady (s : state) :
  videosReady (exec pauseVideo s) = videosReady s.
Proof.
  destruct s as [v m b r l n p e ls vr], r as [[|id]|]; reflexivity.
Qed.

(** Only the poll writes [videosReady]: it copies the mesh's flag. *)
Lemma step_videosReady (ev : event) (s : state) :
  videosReady (exec (step ev) s) =
    match ev with
    | PollReadiness => bothVideosReady s
    | _ => videosReady s
    end.
Proof.
  destruct ev as [h n|h| |h msg|h dt|id| |o|time|o| |time].
  - destruct h; reflexivity.
  - unfold_handlers. cbn [fst snd]. split_ifs; reflexivity.
  - reflexivity.
  - destruct h; reflexivity.
  - unfold_handlers. cbn [fst snd]. destruct h; split_ifs; reflexivity.
  - unfold exec. destruct (step_Tick_cases id s) as [-> | ->]; reflexivity.
  - unfold_handlers. cbn [fst snd].
    destruct (bothVideosReady s) eqn:Eb, (videosReady s) eqn:Ev; cbn;
      congruence.
  - cbn [step]. rewrite togglePlayPause_exec.
    destruct (videosReady s) eqn:E; [|exact E].
    destruct (isPlaying s); cbn [videosReady with_isPlaying].
    + rewrite pauseVideo_videosReady. exact E.
    + rewrite playVideo_videosReady. exact E.
  - unfold_handlers. cbn [fst snd]. split_ifs; cbn; congruence.
  - apply playVideo_videosReady.
  - apply pauseVideo_videosReady.
  - reflexivity.
Qed.

(** Only the Play / Pause button writes [isPlaying]. *)
Lemma step_isPlaying (ev : event) (s : state) :
  isPlaying (exec (step ev) s) =
    match ev with
    | ClickToggle _ => xorb (videosReady s) (isPlaying s)
    | _ => isPlaying s
    end.
Proof.
  destruct ev as [h n|h| |h msg|h dt|id| |o|time|o| |time].
  - destruct h; reflexivity.
  - unfold_handlers. cbn [fst snd]. split_ifs; reflexivity.
  - reflexivity.
  - destruct h; reflexivity.
  - unfold_handlers. cbn [fst snd]. destruct h; split_ifs; reflexivity.
  - unfold exec. destruct (step_Tick_cases id s) as [-> | ->]; reflexivity.
  - unfold_handlers. cbn [fst snd]. split_ifs; reflexivity.
  - cbn [step]. rewrite togglePlayPause_exec.
    destruct (videosReady s); [|reflexivity].
    destruct (isPlaying s); reflexivity.
  - unfold_handlers. cbn [fst snd]. split_ifs; reflexivity.
  - apply playVideo_isPlaying.
  - apply pauseVideo_isPlaying.
  - reflexivity.
Qed.

(** A timer can only appear in a mesh that is ready. *)
Lemma step_ref_ready (ev : event) (s : state) :
  timer_owned s ->
  syncIntervalRef (exec (step ev) s) <> None ->
  syncIntervalRef s <> None \/ bothVideosReady s = true.
Proof.
  intros Hown H.
  assert (Hplay : forall o, syncIntervalRef (exec (playVideo o) s) <> None ->
                            syncIntervalRef s <> None \/ bothVideosReady s = true).
  { intros o Ho. destruct (bothVideosReady s) eqn:E; [right; reflexivity|].
    left. unfold exec in Ho. rewrite playVideo_not_ready in Ho by exact E.
    exact Ho. }
  destruct (is_transport ev) eqn:Htr.
  - destruct ev; try discriminate Htr; cbn [step] in H.
    + rewrite togglePlayPause_exec in H.
      destruct (videosReady s); [|left; exact H].
      destruct (isPlaying s); cbn [syncIntervalRef with_isPlaying] in H.
      * rewrite pauseVideo_clears_ref in H by exact Hown. contradiction.
      * exact (Hplay o H).
    + exact (Hplay o H).
    + rewrite pauseVideo_clears_ref in H by exact Hown. contradiction.
  - left. destruct (step_same_timers ev s Htr) as (Hr & _). congruence.
Qed.

Lemma checkReady_cases (s : state) :
  checkReady s = (tt, s, []) \/
  checkReady s = (tt, with_bothVideosReady true s, []).
Proof.
  unfold checkReady, bind, get. cbn [fst snd].
  destruct (_ && _); [right | left]; reflexivity.
Qed.

Lemma step_flag_mono (ev : event) (s : state) :
  bothVideosReady s = true -> bothVideosReady (exec (step ev) s) = true.
Proof.
  intros H. rewrite step_flag, H. reflexivity.
Qed.

Lemma step_ready_chain (ev : event) (s : state) :
  timer_owned s -> ready_chain s -> ready_chain (exec (step ev) s).
Proof.
  intros Hown (H1 & H2 & H3). unfold ready_chain.
  rewrite step_videosReady, step_isPlaying. repeat split.
  - destruct ev; try exact H1.
    + intros Hp. apply H2, H1, Hp.
    + destruct (videosReady s); [reflexivity|]. exact H1.
  - intros Hv. assert (Hb : bothVideosReady s = true)
      by (destruct ev; try (apply H2; exact Hv); exact Hv).
    apply step_flag_mono. exact Hb.
  - intros Hr. apply step_flag_mono.
    destruct (step_ref_ready ev Hown Hr) as [H|H]; [apply H3; exact H | exact H].
Qed.

Lemma mounted_ready_chain (v m : video) : ready_chain (mounted v m).
Proof.
  assert (H : isPlaying (mounted v m) = false /\
              videosReady (mounted v m) = false /\
              syncIntervalRef (mounted v m) = None).
  { unfold mounted, mount, exec, bind, get. cbn [fst snd].
    destruct (checkReady_cases (init v m)) as [-> | ->]; cbn [fst snd];
      destruct (1 <=? _)%nat; repeat split. }
  destruct H as (Hp & Hv & Hr). unfold ready_chain.
  rewrite Hp, Hv, Hr. repeat split; intros H; try discriminate H.
  contradiction.
Qed.

Lemma run_ready_chain (evs : list event) (s : state) :
  timer_owned s -> ready_chain s -> ready_chain (run evs s).
Proof.
  revert s. induction evs as [|ev evs IH]; intros s Hown Hc; [exact Hc|].
  cbn [run]. apply IH.
  - exact (step_timer_owned ev Hown).
  - exact (step_ready_chain ev Hown Hc).
Qed.

Lemma playing_implies_ready_aux (v m : video) (evs : list event) :
  videosReady (run evs (mounted v m)) = true ->
  bothVideosReady (run evs (mounted v m)) = true.
Proof.
  apply (run_ready_chain evs (mounted_timer_owned v m)
           (mounted_ready_chain v m)).
Qed.

(** In every state the component reaches, the pair is marked playing only
    if the player has seen it ready, the player has seen it ready only if
    the mesh flag is set, and a corrector timer is held only if the mesh
    flag is set. *)
Theorem playing_implies_ready :
  forall (v m : video) (evs : list event),
    let s := run evs (mounted v m) in
    (isPlaying s = true -> videosReady s = true) /\
    (videosReady s = true -> bothVideosReady s = true) /\
    (syncIntervalRef s <> None -> bothVideosReady s = true).
Proof.
  intros v m evs. apply run_ready_chain.
  - apply mounted_timer_owned.
  - apply mounted_ready_chain.
Qed.

Lemma not_ready_step_issues_nothing (ev : event) (s : state) :
  timer_owned s -> ready_chain s ->
  bothVideosReady s = false ->
  is_direct_call ev = false ->
  effects (step ev) s = [].
Proof.
  intros Hown (H1 & H2 & H3) Hb Hev.
  assert (Hv : videosReady s = false).
  { destruct (videosReady s); [|reflexivity].
    rewrite H2 in Hb by reflexivity. discriminate Hb. }
  assert (Hr : syncIntervalRef s = None).
  { destruct (syncIntervalRef s) eqn:E; [|reflexivity].
    rewrite H3 in Hb by discriminate. discriminate Hb. }
  destruct ev as [h n|h| |h msg|h dt|id| |o|time|o| |time];
    try discriminate Hev.
  - destruct h; reflexivity.
  - unfold_handlers. cbn [fst snd]. split_ifs; reflexivity.
  - reflexivity.
  - destruct h; reflexivity.
  - unfold_handlers. cbn [fst snd]. destruct h; split_ifs; reflexivity.
  - unfold effects. rewrite step_Tick_inactive; [reflexivity|].
    rewrite (timer_owned_no_ref Hown Hr). intros [].
  - unfold_handlers. cbn [fst snd]. split_ifs; reflexivity.
  - unfold effects, step, togglePlayPause, bind, get. cbn [fst snd].
    rewrite Hv. reflexivity.
  - unfold effects, step, seekToTime, bind, get. cbn [fst snd].
    rewrite Hv. reflexivity.
  - unfold effects. cbn [step]. rewrite playVideo_not_ready by exact Hb.
    reflexivity.
Qed.

(** Until the mesh flag is set, nothing the user or the host does through
    the buttons, the mesh click, the poll, the timers or the media events
    makes the component issue any operation on an element or a timer; and
    the pair is never marked playing.  (Direct calls of [pauseVideo] and
    [seekTo] on the mesh object are not covered: they are not guarded.) *)
Theorem nothing_is_issued_before_ready :
  forall (v m : video) (evs : list event),
    bothVideosReady (run evs (mounted v m)) = false ->
    forallb (fun ev => negb (is_direct_call ev)) evs = true ->
    Forall issued_nothing (run_trace evs (mounted v m)) /\
    isPlaying (run evs (mounted v m)) = false.
Proof.
  intros v m evs Hend Hev.
  pose proof (mounted_timer_owned v m) as Hown.
  pose proof (mounted_ready_chain v m) as Hc.
  split.
  - revert Hend Hev Hown Hc. generalize (mounted v m) as s.
    induction evs as [|ev evs IH]; intros s Hend Hev Hown Hc; [constructor|].
    cbn in Hev. apply andb_true_iff in Hev. destruct Hev as [Hd Hev].
    apply negb_true_iff in Hd. cbn [run run_trace] in *. constructor.
    + apply not_ready_step_issues_nothing; try assumption.
      destruct (bothVideosReady s) eqn:E; [|reflexivity].
      assert (Hf : bothVideosReady (run evs (exec (step ev) s)) = true)
        by (apply run_flag_latched, step_flag_mono; exact E).
      congruence.
    + apply IH; try assumption.
      * exact (step_timer_owned ev Hown).
      * exact (step_ready_chain ev Hown Hc).
  - destruct (run_ready_chain evs Hown Hc) as (H1 & H2 & _).
    destruct (isPlaying (run evs (mounted v m))); [|reflexivity].
    rewrite H2 in Hend; [discriminate Hend | apply H1; reflexivity].
Qed.

Lemma nothing_is_issued_before_ready_witness :
  Forall issued_nothing
    (run_trace
       [ReadyStateChange Primary 4; CanPlay Primary; PollReadiness;
        ClickToggle started; ClickMesh started; ClickSeek (5 # 1); Tick 1]
       (mounted clip clip)).
Proof.
  apply (nothing_is_issued_before_ready clip clip
           [ReadyStateChange Primary 4; CanPlay Primary; PollReadiness;
            ClickToggle started; ClickMesh started; ClickSeek (5 # 1);
            Tick 1]);
    reflexivity.
Defined.

(** ** Starting, stopping and rejected playback *)

(** When a [play()] request is rejected, [playVideo] reports 'Playback
    error: ' followed by the rejection [Promise.all] reports, which is the
    one that comes first when both requests are rejected, and the player
    shows the status 'Error loading videos'; both positions were already
    reset and both requests issued, but no corrector timer is started and
    the timer table is left as it was. *)
Theorem rejected_play_is_reported_and_starts_no_timer :
  forall (s : state) (o : play_outcome) (err : string),
    bothVideosReady s = true ->
    rejection o = Some err ->
    let s' := exec (playVideo o) s in
    error s' = Some ("Playback error: " ++ err)%string /\
    loadingStatus s' = "Error loading videos"%string /\
    effects (playVideo o) s =
      [SetCurrentTime Primary 0; SetCurrentTime Follower 0;
       Play Primary; Play Follower] /\
    same_timers s s'.
Proof.
  intros s [pp fp ff] err Hready Hrej.
  destruct s as [v m b r l n p e ls vr]. cbn in Hready. subst b.
  destruct pp as [e1|], fp as [e2|], ff; cbn in Hrej;
    try discriminate Hrej; injection Hrej as <-; repeat split.
Qed.

Lemma rejected_play_is_reported_and_starts_no_timer_witness :
  error (exec (playVideo (mkOutcome (Some "NotSupportedError"%string)
                            (Some "NotAllowedError"%string) true))
           ready_state)
    = Some "Playback error: NotAllowedError"%string.
Proof.
  apply (rejected_play_is_reported_and_starts_no_timer
           ready_state
           (mkOutcome (Some "NotSupportedError"%string)
              (Some "NotAllowedError"%string) true)
           eq_refl eq_refl).
Defined.

(** The Play / Pause button does nothing at all until the player has seen
    the pair ready; from then on every click flips [isPlaying], also when
    the play requests it issued were rejected. *)
Theorem toggle_flips_isPlaying_whatever_the_outcome :
  forall (s : state) (o : play_outcome),
    (videosReady s = false -> togglePlayPause o s = (tt, s, [])) /\
    (videosReady s = true ->
     isPlaying (exec (togglePlayPause o) s) = negb (isPlaying s)).
Proof.
  intros s o. split; intros Hv.
  - unfold togglePlayPause, bind, get. cbn [fst snd]. rewrite Hv. reflexivity.
  - pose proof (step_isPlaying (ClickToggle o) s) as H. cbn [step] in H.
    rewrite H, Hv. reflexivity.
Qed.

(** Once the player has seen the pair ready, [playVideo] called by the
    Play button always passes its guard: a click on Play in a state the
    component reaches resets both positions and issues both play requests. *)
Theorem play_button_is_never_refused :
  forall (v m : video) (evs : list event) (o : play_outcome),
    let s := run evs (mounted v m) in
    videosReady s = true ->
    isPlaying s = false ->
    exists rest,
      effects (step (ClickToggle o)) s =
        [SetCurrentTime Primary 0; SetCurrentTime Follower 0;
         Play Primary; Play Follower] ++ rest /\
      forallb is_timer_effect rest = true.
Proof.
  intros v m evs o s Hv Hp.
  assert (Hb : bothVideosReady s = true).
  { apply (playing_implies_ready_aux v m evs). exact Hv. }
  destruct (playVideo_ready s o Hb) as (rest & He & Ht & _).
  exists rest. split; [|exact Ht].
  unfold effects in *. cbn [step]. unfold togglePlayPause, bind, get.
  cbn [fst snd]. rewrite Hv, Hp. cbn [fst snd]. rewrite He.
  unfold modify. cbn [snd]. rewrite app_nil_r. reflexivity.
Qed.

Lemma play_button_is_never_refused_witness :
  exists rest,
    effects (step (ClickToggle started)) (run until_ready (mounted clip clip)) =
      [SetCurrentTime Primary 0; SetCurrentTime Follower 0;
       Play Primary; Play Follower] ++ rest /\
    forallb is_timer_effect rest = true.
Proof.
  apply (play_button_is_never_refused clip clip until_ready started);
    reflexivity.
Defined.

(** ** More on the drift corrector *)

Lemma double_sub_diag (t : Q) : double_sub t t = 0%Q.
Proof.
  unfold double_sub, round_to_double.
  replace (Qnum (t - t) =? 0)%Z with true; [reflexivity|].
  symmetry. apply Z.eqb_eq. destruct t as [n d]. cbn. ring.
Qed.

Lemma no_drift (t : Q) : (Qabs (double_sub t t) <= SYNC_THRESHOLD)%Q.
Proof.
  rewrite double_sub_diag. unfold SYNC_THRESHOLD. discriminate.
Qed.

Lemma syncVideos_aligned (s : state) :
  currentTime (maskElement s) = currentTime (videoElement s) ->
  syncVideos s = (tt, s, []).
Proof.
  intros H. apply syncVideos_within. rewrite H. apply no_drift.
Qed.

Lemma step_Tick_aligned (id : nat) (s : state) :
  currentTime (maskElement s) = currentTime (videoElement s) ->
  step (Tick id) s = (tt, s, []).
Proof.
  intros H. destruct (in_dec Nat.eq_dec id (intervals s)) as [Hin|Hout].
  - rewrite step_Tick_active by exact Hin. apply syncVideos_aligned, H.
  - apply step_Tick_inactive, Hout.
Qed.

(** One evaluation of [syncVideos] settles the pair: a second evaluation
    right after it changes nothing, and it issues nothing when the follower
    can take the primary's position, that is when that position lies
    within the follower's own duration.  (Otherwise the follower stands at
    its clamp and the same write is issued again.) *)
Theorem syncVideos_is_idempotent :
  forall s : state,
    exec syncVideos (exec syncVideos s) = exec syncVideos s /\
    (within_duration (duration (maskElement s)) (currentTime (videoElement s))
       = true ->
     syncVideos (exec syncVideos s) = (tt, exec syncVideos s, [])).
Proof.
  intros s. unfold exec at 2 3 4 5.
  destruct (syncVideos_cases s) as [H|H]; rewrite H; cbn [fst snd].
  - split; [unfold exec; rewrite H; reflexivity | intros _; exact H].
  - split.
    + unfold exec.
      match goal with |- snd (fst (syncVideos ?s1)) = _ =>
        destruct (syncVideos_cases s1) as [H1|H1]; rewrite H1 end.
      * reflexivity.
      * destruct s as [v [rs ct pa me du] b r l n p e ls vr]. reflexivity.
    + intros Hin. apply syncVideos_aligned.
      cbn [maskElement videoElement with_maskElement currentTime
           with_currentTime].
      apply clamp_within. exact Hin.
Qed.

Lemma syncVideos_is_idempotent_witness :
  syncVideos (exec syncVideos playing_drifted)
    = (tt, exec syncVideos playing_drifted, []).
Proof.
  apply (syncVideos_is_idempotent playing_drifted). reflexivity.
Defined.

(** A tick that comes right after a play finds both positions at 0 and
    issues nothing; so does a tick right after a seek when both elements
    take the written time to the same position, that is when their
    durations agree or the time lies within both.  Neither operation
    provokes a correction by itself. *)
Theorem tick_right_after_seek_or_play_is_silent :
  forall (s : state) (time : Q) (o : play_outcome) (id : nat),
    (duration (videoElement s) = duration (maskElement s) \/
     within_duration (duration (videoElement s)) time
       && within_duration (duration (maskElement s)) time = true ->
     step (Tick id) (exec (seekTo time) s) = (tt, exec (seekTo time) s, [])) /\
    (bothVideosReady s = true ->
     step (Tick id) (exec (playVideo o) s) = (tt, exec (playVideo o) s, [])).
Proof.
  intros s time o id. split.
  - intros Hsame. apply step_Tick_aligned.
    change (clamp_to_duration (duration (maskElement s)) time
            = clamp_to_duration (duration (videoElement s)) time).
    destruct Hsame as [Hd|Hin].
    + rewrite Hd. reflexivity.
    + apply andb_true_iff in Hin. destruct Hin as [Hv Hm].
      rewrite (clamp_within _ _ Hv), (clamp_within _ _ Hm). reflexivity.
  - intros Hready. apply step_Tick_aligned.
    destruct (playVideo_ready s o Hready) as (_ & _ & _ & Hv & Hm).
    rewrite Hv, Hm. reflexivity.
Qed.

(** ** The player's poll and the error text *)

(** The poll copies the mesh flag into [videosReady], issues nothing, and
    touches nothing when the two already agree; the status text changes
    only on the poll that first sees the pair ready. *)
Theorem poll_copies_the_flag :
  forall s : state,
    let s' := exec checkReadiness s in
    videosReady s' = bothVideosReady s /\
    effects checkReadiness s = [] /\
    (videosReady s = bothVideosReady s -> s' = s) /\
    (loadingStatus s' <> loadingStatus s ->
     videosReady s = false /\ bothVideosReady s = true /\
     loadingStatus s' = "Videos synchronized and ready"%string) /\
    exec checkReadiness s' = s'.
Proof.
  intros s. destruct s as [v m b r l n p e ls vr].
  destruct b, vr; cbn; repeat split; try congruence;
    intros H; try discriminate H; contradiction.
Qed.

(** The cause an error report names is never empty: it is the element's
    message, or 'Unknown error' when the element gives none or an empty
    one. *)
Theorem error_cause_is_never_empty :
  forall e : option string,
    message_or_unknown e <> ""%string /\
    (forall m, e = Some m -> m <> ""%string -> message_or_unknown e = m) /\
    (e = None \/ e = Some ""%string ->
     message_or_unknown e = "Unknown error"%string).
Proof.
  intros e. destruct e as [[|c m]|]; cbn; repeat split;
    try discriminate; try reflexivity;
    try (intros m' H; injection H as <-; intros; congruence);
    try (intros [H|H]; discriminate H);
    try (intros m' H; discriminate H).
Qed.

(** A tick changes nothing but the follower's position: flags, timers,
    player state, the primary element and every other field of the mask
    element are as before. *)
Theorem tick_changes_only_follower_position :
  forall (s : state) (id : nat),
    exists t : Q,
      exec (step (Tick id)) s
        = with_maskElement (with_currentTime t (maskElement s)) s.
Proof.
  intros s id. unfold exec.
  destruct (step_Tick_cases id s) as [-> | ->]; cbn [fst snd].
  - exists (currentTime (maskElement s)).
    destruct s as [v [rs ct pa me du] b r l n p e ls vr]. reflexivity.
  - eexists. reflexivity.
Qed.

Lemma pauseVideo_primary_time (s : state) :
  currentTime (videoElement (exec pauseVideo s)) = currentTime (videoElement s) /\
  forall t, ~ In (SetCurrentTime Primary t) (effects pauseVideo s).
Proof.
  destruct s as [v m b r l n p e ls vr], r as [[|id]|]; split;
    try reflexivity; intros t H; cbn in H;
    repeat (destruct H as [H|H]; [discriminate H|]); exact H.
Qed.

(** ** Who moves the primary *)

(** The primary's position is written only by play (to 0) and by seek, and
    it advances only by its own playback.  Every other event, ticks,
    pauses, errors and readiness changes included, leaves it where it is
    and issues no write to it. *)
Theorem primary_position_moves_only_by_play_seek_or_playback :
  forall (ev : event) (s : state),
    may_move_primary ev = false ->
    currentTime (videoElement (exec (step ev) s))
      = currentTime (videoElement s) /\
    forall t, ~ In (SetCurrentTime Primary t) (effects (step ev) s).
Proof.
  intros ev s Hev.
  destruct ev as [h n|h| |h msg|[|] dt|id| |o|time|o| |time];
    try discriminate Hev.
  - destruct h; split; try reflexivity; intros t [].
  - unfold exec, effects. cbn [step].
    destruct (checkReady_cases s) as [-> | ->]; split;
      try reflexivity; intros t [].
  - split; [reflexivity | intros t []].
  - destruct h; split; try reflexivity; intros t [].
  - unfold_handlers. cbn [fst snd]. split_ifs; split;
      try reflexivity; intros t [].
  - unfold exec, effects.
    destruct (step_Tick_cases id s) as [-> | ->]; split;
      try reflexivity; [intros t [] | intros t [H|[]]; discriminate H].
  - unfold_handlers. cbn [fst snd]. split_ifs; split;
      try reflexivity; intros t [].
  - apply pauseVideo_primary_time.
Qed.

Lemma primary_position_moves_only_by_play_seek_or_playback_witness :
  currentTime (videoElement (exec (step CallPause) playing_at_7))
    = currentTime (videoElement playing_at_7).
Proof.
  apply (primary_position_moves_only_by_play_seek_or_playback
           CallPause playing_at_7).
  reflexivity.
Defined.

(** * The fragment shader *)

Lemma ratio_positive (p q u v : Q) :
  (0 < p)%Q -> (0 < q)%Q -> (0 < u)%Q -> (0 < v)%Q ->
  (0 < (p / q) / (u / v))%Q.
Proof.
  intros Hp Hq Hu Hv.
  assert (Hpq : (0 < p / q)%Q) by (apply Qlt_shift_div_l; [exact Hq|]; lra).
  assert (Huv : (0 < u / v)%Q) by (apply Qlt_shift_div_l; [exact Hv|]; lra).
  apply Qlt_shift_div_l; [exact Huv|]. lra.
Qed.

Lemma ratio_bounds (p q u v : Q) :
  (0 < p)%Q -> (0 < q)%Q -> (0 < u)%Q -> (0 < v)%Q ->
  (0 < Qmin ((p / q) / (u / v)) 1 <= 1)%Q.
Proof.
  intros Hp Hq Hu Hv. split.
  - apply Q.min_glb_lt; [apply ratio_positive; assumption | reflexivity].
  - apply Q.le_min_r.
Qed.

Lemma corrected_coordinate_bounds (u ratio : Q) :
  (0 <= u <= 1)%Q -> (0 < ratio <= 1)%Q ->
  (0 <= u * ratio + (1 - ratio) * (1 # 2) <= 1)%Q.
Proof.
  intros [Hu0 Hu1] [Hr0 Hr1]. split; nra.
Qed.

(** With positive resolutions, [aspectCorrectUV] maps the unit square into
    itself, so the corrected coordinate never leaves the texture; and it
    always leaves the centre of the square where it is. *)
Theorem aspectCorrectUV_stays_in_unit_square :
  forall uv resolution videoRes : Shader.vec2,
    Shader.positive resolution ->
    Shader.positive videoRes ->
    (Shader.in_unit_square uv ->
     Shader.in_unit_square (Shader.aspectCorrectUV uv resolution videoRes)) /\
    (Shader.x (Shader.aspectCorrectUV (Shader.mkVec2 (1 # 2) (1 # 2))
                 resolution videoRes) == 1 # 2)%Q /\
    (Shader.y (Shader.aspectCorrectUV (Shader.mkVec2 (1 # 2) (1 # 2))
                 resolution videoRes) == 1 # 2)%Q.
Proof.
  intros uv [rx ry] [vx vy] [Hrx Hry] [Hvx Hvy]. cbn in *.
  split; [|split].
  - intros [Hx Hy]. unfold Shader.in_unit_square, Shader.aspectCorrectUV.
    cbn [Shader.x Shader.y]. split.
    + apply corrected_coordinate_bounds; [exact Hx|].
      apply ratio_bounds; assumption.
    + apply corrected_coordinate_bounds; [exact Hy|].
      apply ratio_bounds; assumption.
  - unfold Shader.aspectCorrectUV. cbn [Shader.x Shader.y]. ring.
  - unfold Shader.aspectCorrectUV. cbn [Shader.x Shader.y]. ring.
Qed.

Lemma aspectCorrectUV_stays_in_unit_square_witness :
  Shader.in_unit_square
    (Shader.aspectCorrectUV (Shader.mkVec2 (1 # 4) 1)
       (Shader.mkVec2 (800 # 1) (600 # 1))
       (Shader.mkVec2 (1920 # 1) (1080 # 1))).
Proof.
  apply (@aspectCorrectUV_stays_in_unit_square
           (Shader.mkVec2 (1 # 4) 1)
           (Shader.mkVec2 (800 # 1) (600 # 1))
           (Shader.mkVec2 (1920 # 1) (1080 # 1))).
  - split; reflexivity.
  - split; reflexivity.
  - split; split; discriminate.
Defined.

Lemma reciprocal_ratios (p q u v : Q) :
  (0 < p)%Q -> (0 < q)%Q -> (0 < u)%Q -> (0 < v)%Q ->
  (((p / q) / (u / v)) * ((q / p) / (v / u)) == 1)%Q.
Proof.
  intros Hp Hq Hu Hv. field. repeat split; lra.
Qed.

Lemma unit_ratio_is_identity (u m : Q) :
  (m == 1)%Q -> (u * m + (1 - m) * (1 # 2) == u)%Q.
Proof.
  intros Hm. rewrite Hm. ring.
Qed.

(** With positive resolutions, [aspectCorrectUV] rescales at most one
    axis: one of the two coordinates always passes through unchanged, and
    when viewport and video have the same aspect ratio both do. *)
Theorem aspectCorrectUV_rescales_at_most_one_axis :
  forall uv resolution videoRes : Shader.vec2,
    Shader.positive resolution ->
    Shader.positive videoRes ->
    let out := Shader.aspectCorrectUV uv resolution videoRes in
    ((Shader.x out == Shader.x uv)%Q \/ (Shader.y out == Shader.y uv)%Q) /\
    ((Shader.x resolution * Shader.y videoRes
        == Shader.y resolution * Shader.x videoRes)%Q ->
     (Shader.x out == Shader.x uv)%Q /\ (Shader.y out == Shader.y uv)%Q).
Proof.
  intros [ux uy] [rx ry] [vx vy] [Hrx Hry] [Hvx Hvy]. cbn in *.
  unfold Shader.aspectCorrectUV. cbn [Shader.x Shader.y].
  set (p := ((rx / ry) / (vx / vy))%Q).
  set (q := ((ry / rx) / (vy / vx))%Q).
  assert (Hpq : (p * q == 1)%Q) by (apply reciprocal_ratios; assumption).
  assert (Hp : (0 < p)%Q) by (apply ratio_positive; assumption).
  assert (Hq : (0 < q)%Q) by (apply ratio_positive; assumption).
  split.
  - destruct (Qlt_le_dec p 1) as [Hlt|Hge].
    + right. apply unit_ratio_is_identity. apply Q.min_r. nra.
    + left. apply unit_ratio_is_identity. apply Q.min_r. exact Hge.
  - intros Hsame.
    assert (Hp1 : (p == 1)%Q).
    { subst p. field_simplify_eq; [|repeat split; lra]. lra. }
    assert (Hq1 : (q == 1)%Q).
    { subst q. field_simplify_eq; [|repeat split; lra]. lra. }
    split; apply unit_ratio_is_identity; apply Q.min_r; lra.
Qed.

Lemma aspectCorrectUV_rescales_at_most_one_axis_witness :
  let out :=
    Shader.aspectCorrectUV (Shader.mkVec2 (1 # 4) (3 # 4))
      (Shader.mkVec2 (1600 # 1) (900 # 1))
      (Shader.mkVec2 (1920 # 1) (1080 # 1)) in
  (Shader.x out == 1 # 4)%Q /\ (Shader.y out == 3 # 4)%Q.
Proof.
  apply (@aspectCorrectUV_rescales_at_most_one_axis
           (Shader.mkVec2 (1 # 4) (3 # 4))
           (Shader.mkVec2 (1600 # 1) (900 # 1))
           (Shader.mkVec2 (1920 # 1) (1080 # 1))).
  - split; reflexivity.
  - split; reflexivity.
  - reflexivity.
Defined.

(** The colour written for a pixel has alpha 1 and depends on the mask only
    through its red channel.  It is the video colour where the mask is 0
    and pure red where the mask is 1; for a mask value and video channels
    in [0, 1] every channel stays in [0, 1], red never falls, and green and
    blue never rise. *)
Theorem fragColor_mixes_video_towards_red :
  forall videoColor maskColor : Shader.vec4,
    let video := Shader.rgb videoColor in
    let mask := Shader.r (Shader.rgb maskColor) in
    let out := Shader.rgb (Shader.fragColor videoColor maskColor) in
    Shader.a (Shader.fragColor videoColor maskColor) = 1%Q /\
    (forall other : Shader.vec4,
       Shader.r (Shader.rgb other) = mask ->
       Shader.fragColor videoColor other
         = Shader.fragColor videoColor maskColor) /\
    ((mask == 0)%Q ->
     (Shader.r out == Shader.r video)%Q /\
     (Shader.g out == Shader.g video)%Q /\
     (Shader.b out == Shader.b video)%Q) /\
    ((mask == 1)%Q ->
     (Shader.r out == 1)%Q /\ (Shader.g out == 0)%Q /\ (Shader.b out == 0)%Q) /\
    ((0 <= mask <= 1)%Q ->
     (0 <= Shader.r video <= 1)%Q ->
     (0 <= Shader.g video <= 1)%Q ->
     (0 <= Shader.b video <= 1)%Q ->
     (Shader.r video <= Shader.r out <= 1)%Q /\
     (0 <= Shader.g out <= Shader.g video)%Q /\
     (0 <= Shader.b out <= Shader.b video)%Q).
Proof.
  intros [[vr vg vb] va] [[mr mg mb] ma]. cbn.
  unfold Shader.mix. split; [reflexivity|]. split; [|split; [|split]].
  - intros [[o1 o2 o3] o4]. cbn. intros ->. reflexivity.
  - intros H. rewrite H. repeat split; ring.
  - intros H. rewrite H. repeat split; ring.
  - intros [Hm0 Hm1] [Hr0 Hr1] [Hg0 Hg1] [Hb0 Hb1]. repeat split; nra.
Qed.

(** The video resolution handed to the shader is never zero: a missing
    width or height is replaced by 1920 or 1080, a known one is passed on.
    So for a viewport of positive size the corrected coordinate stays in
    the unit square whatever the video reports. *)
Theorem videoResolution_is_never_zero :
  forall (videoWidth videoHeight : nat) (uv resolution : Shader.vec2),
    Shader.positive (Shader.videoResolution videoWidth videoHeight) /\
    Shader.videoResolution 0 0
      = Shader.mkVec2 (inject_Z 1920) (inject_Z 1080) /\
    Shader.videoResolution (S videoWidth) (S videoHeight)
      = Shader.mkVec2 (inject_Z (Z.of_nat (S videoWidth)))
                      (inject_Z (Z.of_nat (S videoHeight))) /\
    (Shader.positive resolution ->
     Shader.in_unit_square uv ->
     Shader.in_unit_square
       (Shader.aspectCorrectUV uv resolution
          (Shader.videoResolution videoWidth videoHeight))).
Proof.
  intros w h uv res.
  assert (Hpos : Shader.positive (Shader.videoResolution w h)).
  { unfold Shader.positive, Shader.videoResolution. cbn [Shader.x Shader.y].
    split.
    - destruct w; cbn [Shader.or_default]; unfold Qlt; cbn; lia.
    - destruct h; cbn [Shader.or_default]; unfold Qlt; cbn; lia. }
  split; [exact Hpos|]. split; [reflexivity|]. split; [reflexivity|].
  intros Hres Huv.
  destruct res as [rx ry], Hres as [Hrx Hry], Hpos as [Hvx Hvy].
  destruct Huv as [Hx Hy]. cbn in Hrx, Hry.
  unfold Shader.in_unit_square, Shader.aspectCorrectUV.
  cbn [Shader.x Shader.y]. split.
  - apply corrected_coordinate_bounds; [exact Hx|].
    apply ratio_bounds; assumption.
  - apply corrected_coordinate_bounds; [exact Hy|].
    apply ratio_bounds; assumption.
Qed.

(** * The VideoTest component *)

Lemma VideoTest_run_app (evs1 evs2 : list VideoTest.event)
  (s : VideoTest.state) :
  fst (VideoTest.run (evs1 ++ evs2) s)
    = fst (VideoTest.run evs2 (fst (VideoTest.run evs1 s))).
Proof.
  revert s. induction evs1 as [|ev evs1 IH]; intros s; [reflexivity|].
  cbn. apply IH.
Qed.

Lemma VideoTest_main_line (evs : list VideoTest.event)
  (s s' : VideoTest.state) :
  VideoTest.mainVideoError s = VideoTest.mainVideoError s' ->
  VideoTest.mainVideoError (fst (VideoTest.run evs s))
    = VideoTest.mainVideoError
        (fst (VideoTest.run (filter VideoTest.about_main evs) s')).
Proof.
  revert s s'. induction evs as [|ev evs IH]; intros s s' H; [exact H|].
  destruct ev; cbn; apply IH; cbn; try reflexivity; exact H.
Qed.

Lemma VideoTest_mask_line (evs : list VideoTest.event)
  (s s' : VideoTest.state) :
  VideoTest.maskVideoError s = VideoTest.maskVideoError s' ->
  VideoTest.maskVideoError (fst (VideoTest.run evs s))
    = VideoTest.maskVideoError
        (fst (VideoTest.run (filter VideoTest.about_mask evs) s')).
Proof.
  revert s s'. induction evs as [|ev evs IH]; intros s s' H; [exact H|].
  destruct ev; cbn; apply IH; cbn; try reflexivity; exact H.
Qed.

(** The two error lines of VideoTest are independent: the line of the main
    video is decided by the main video's own error and load events alone,
    and likewise for the mask; and an error line shows exactly the outcome
    of the last such event, 'Error: ' before the cause, or nothing after a
    load. *)
Theorem VideoTest_error_lines_are_independent :
  forall (evs : list VideoTest.event) (s : VideoTest.state),
    VideoTest.mainVideoError (fst (VideoTest.run evs s))
      = VideoTest.mainVideoError
          (fst (VideoTest.run (filter VideoTest.about_main evs) s)) /\
    VideoTest.maskVideoError (fst (VideoTest.run evs s))
      = VideoTest.maskVideoError
          (fst (VideoTest.run (filter VideoTest.about_mask evs) s)) /\
    (forall message,
       VideoTest.mainVideoError
         (fst (VideoTest.run (evs ++ [VideoTest.MainError message]) s))
         = Some ("Error: " ++ message_or_unknown message)%string) /\
    VideoTest.mainVideoError
      (fst (VideoTest.run (evs ++ [VideoTest.MainLoad]) s)) = None.
Proof.
  intros evs s. split; [|split; [|split]].
  - apply VideoTest_main_line. reflexivity.
  - apply VideoTest_mask_line. reflexivity.
  - intros message. rewrite VideoTest_run_app. reflexivity.
  - rewrite VideoTest_run_app. reflexivity.
Qed.

(** * The await in playVideo *)

(** [playVideo] is its two parts run one after the other. *)
Lemma playVideo_splits (o : play_outcome) (s : state) :
  playVideo o s =
    let r := playVideo_requests o s in
    if fst (fst r)
    then
      let c := playVideo_continuation (rejection o) (snd (fst r)) in
      (tt, snd (fst c), snd r ++ snd c)
    else (tt, snd (fst r), snd r).
Proof.
  unfold playVideo, playVideo_requests, playVideo_continuation, bind, get, ret.
  cbn [fst snd]. destruct (negb (bothVideosReady s)); [reflexivity|].
  cbn [fst snd]. destruct (rejection o) as [err|]; cbn [fst snd];
    rewrite ?app_nil_r, <- ?app_assoc;
    match goal with |- (?u, _, _) = _ => destruct u end; reflexivity.
Qed.

Lemma exec_repeat_handler_S (n : nat) (k : M unit) (s : state) :
  exec (repeat_handler (S n) k) s = exec (repeat_handler n k) (exec k s).
Proof. reflexivity. Qed.



Lemma continuation_timer_owned (settled : option string) (s : state) :
  timer_owned s -> timer_owned (exec (playVideo_continuation settled) s).
Proof.
  intros H. destruct settled as [err|].
  - exact (same_timers_owned (onVideoError_same_timers _ _) H).
  - exact (startSyncMonitoring_timer_owned H).
Qed.


Lemma repeat_continuation_timer_owned (n : nat) (settled : option string)
  (s : state) :
  timer_owned s ->
  timer_owned (exec (repeat_handler n (playVideo_continuation settled)) s).
Proof.
  revert s. induction n as [|n IH]; intros s H; [exact H|].
  rewrite exec_repeat_handler_S. apply IH, continuation_timer_owned, H.
Qed.


Lemma repeat_rejection_effects (n : nat) (err : string) (s : state) :
  effects (repeat_handler n (playVideo_continuation (Some err))) s = [].
Proof.
  revert s. induction n as [|n IH]; intros s; [reflexivity|].
  unfold effects in *. cbn [repeat_handler]. unfold bind at 1.
  cbn [fst snd]. rewrite IH. reflexivity.
Qed.

Lemma playVideo_requests_same_timers (o : play_outcome) (s : state) :
  same_timers s (snd (fst (playVideo_requests o s))).
Proof.
  unfold playVideo_requests, bind, get. cbn [fst snd].
  destruct (negb (bothVideosReady s)); [repeat split|].
  cbn [fst snd]. apply playVideo_issued_same_timers.
Qed.

Lemma togglePlayPause_requests_state (o : play_outcome) (s : state) :
  snd (fst (togglePlayPause_requests o s)) =
    if videosReady s
    then with_isPlaying (negb (isPlaying s))
           (if isPlaying s
            then exec pauseVideo s
            else snd (fst (playVideo_requests o s)))
    else s.
Proof.
  unfold togglePlayPause_requests, exec, bind, get. cbn [fst snd].
  destruct (videosReady s); [|reflexivity].
  destruct (isPlaying s); reflexivity.
Qed.

Lemma settle_or_await_timer_owned (o : play_outcome)
  (r : bool * state * list effect) (waiting : list pending_play) :
  timer_owned (snd (fst r)) ->
  timer_owned (component (fst (settle_or_await o r waiting))).
Proof.
  intros H. unfold settle_or_await.
  destruct (fst (fst r)); [|exact H].
  destruct (rejection o) as [err|]; [|exact H].
  exact (same_timers_owned (onVideoError_same_timers _ _) H).
Qed.

Lemma async_step_timer_owned (e : async_event) (w : world) :
  timer_owned (component w) ->
  timer_owned (component (fst (async_step e w))).
Proof.
  intros H. destruct e as [ev|h|h err].
  - destruct ev; try exact (step_timer_owned _ H).
    + cbn [async_step]. apply settle_or_await_timer_owned.
      rewrite togglePlayPause_requests_state.
      destruct (videosReady (component w)); [|exact H].
      apply (same_timers_owned (with_isPlaying_same_timers _ _)).
      destruct (isPlaying (component w)).
      * exact (pauseVideo_timer_owned H).
      * exact (same_timers_owned (playVideo_requests_same_timers _ _) H).
    + cbn [async_step]. apply settle_or_await_timer_owned.
      exact (same_timers_owned (playVideo_requests_same_timers _ _) H).
  - cbn [async_step]. destruct (paused _); [exact H|].
    cbn [fst component]. apply repeat_continuation_timer_owned, H.
  - cbn [async_step fst component].
    apply repeat_continuation_timer_owned, H.
Qed.

Lemma async_run_timer_owned (es : list async_event) (w : world) :
  timer_owned (component w) -> timer_owned (component (async_run es w)).
Proof.
  revert w. induction es as [|e es IH]; intros w H; [exact H|].
  cbn [async_run]. apply IH, async_step_timer_owned, H.
Qed.

(** A handler that does not call [playVideo] runs as in the loop above. *)
Lemma async_step_Now_no_play (ev : event) (w : world) :
  invokes_playVideo ev (component w) = false ->
  async_step (Now ev) w =
    (mkWorld (exec (step ev) (component w)) (awaiting w),
     effects (step ev) (component w)).
Proof.
  intros H. destruct ev; try reflexivity; [|discriminate H].
  cbn [async_step step]. cbn [invokes_playVideo] in H.
  unfold settle_or_await, togglePlayPause_requests, togglePlayPause, exec,
    effects, bind, get, modify, ret.
  cbn [fst snd]. destruct (videosReady (component w)); [|reflexivity].
  destruct (isPlaying (component w)); [|discriminate H].
  cbn [fst snd]. rewrite !app_nil_r. reflexivity.
Qed.






Lemma async_run_app (es1 es2 : list async_event) (w : world) :
  async_run (es1 ++ es2) w = async_run es2 (async_run es1 w).
Proof.
  revert w. induction es1 as [|e es1 IH]; intros w; [reflexivity|].
  cbn. apply IH.
Qed.




Lemma settlements_with_nothing_awaiting (es : list async_event) (w : world) :
  awaiting w = [] ->
  forallb is_settlement es = true ->
  async_run es w = w.
Proof.
  intros Ha. induction es as [|e es IH]; intros H; [reflexivity|].
  cbn in H. apply andb_true_iff in H. destruct H as [He H].
  cbn [async_run].
  assert (Hstep : fst (async_step e w) = w).
  { destruct w as [s aw]. cbn in Ha. subst aw.
    destruct e as [ev|h|h err]; [discriminate He| |].
    - cbn. destruct (paused _); reflexivity.
    - reflexivity. }
  rewrite Hstep. exact (IH H).
Qed.

(** ** Pausing, with play promises pending or not *)



(** ** The loop that takes the await in one step is a case of the other *)

Lemma startSyncMonitoring_with_isPlaying (b : bool) (s : state) :
  exec startSyncMonitoring (with_isPlaying b s)
    = with_isPlaying b (exec startSyncMonitoring s).
Proof.
  destruct s as [v m f r l n p e ls vr], r as [[|id]|]; reflexivity.
Qed.

Lemma playVideo_requests_reached (o : play_outcome) (s : state) :
  fst (fst (playVideo_requests o s)) = bothVideosReady s.
Proof.
  unfold playVideo_requests, bind, get. cbn [fst snd].
  destruct (bothVideosReady s); reflexivity.
Qed.

Lemma playVideo_requests_unpaused (o : play_outcome) (s : state) :
  bothVideosReady s = true ->
  rejection o = None ->
  paused (videoElement (snd (fst (playVideo_requests o s)))) = false /\
  paused (maskElement (snd (fst (playVideo_requests o s)))) = false.
Proof.
  intros Hready Hrej. destruct o as [[e1|] [e2|] ff]; try discriminate Hrej.
  unfold playVideo_requests, bind, get. cbn [fst snd]. rewrite Hready.
  split; reflexivity.
Qed.

Lemma exec_playVideo_by_parts (o : play_outcome) (s : state) :
  exec (playVideo o) s =
    if bothVideosReady s
    then exec (playVideo_continuation (rejection o))
           (snd (fst (playVideo_requests o s)))
    else s.
Proof.
  unfold exec. rewrite playVideo_splits. cbv zeta.
  rewrite playVideo_requests_reached.
  destruct (bothVideosReady s) eqn:E; [reflexivity|].
  unfold playVideo_requests, bind, get. cbn [fst snd]. rewrite E. reflexivity.
Qed.

(** Both promises of the one call at its await resolve. *)
Lemma both_start_after_requests (s1 : state) :
  paused (videoElement s1) = false ->
  paused (maskElement s1) = false ->
  async_run [PlaybackStarted Primary; PlaybackStarted Follower]
    (mkWorld s1 [mkPending false false])
    = mkWorld (exec startSyncMonitoring s1) [].
Proof.
  intros Hv Hm. cbn [async_run async_step component element awaiting].
  rewrite Hv. cbn [fst map filter resolve both_resolved primary_resolved
                    follower_resolved andb negb length repeat_handler
                    component element awaiting].
  unfold ret at 1. cbn [fst snd]. rewrite Hm.
  cbn [fst map filter resolve both_resolved primary_resolved
       follower_resolved andb negb length repeat_handler].
  reflexivity.
Qed.

(** Every step of the loop that takes the await in one step is a step of
    the other loop followed by settlements. *)
Lemma step_is_async_run (ev : event) (s : state) :
  exists settle,
    forallb is_settlement settle = true /\
    async_run (Now ev :: settle) (mkWorld s [])
      = mkWorld (exec (step ev) s) [].
Proof.
  destruct (invokes_playVideo ev s) eqn:Hev.
  2:{ exists []. split; [reflexivity|].
      cbn [async_run]. rewrite async_step_Now_no_play by exact Hev.
      reflexivity. }
  destruct ev; try discriminate Hev.
  - (* ClickToggle *)
    cbn in Hev. apply andb_true_iff in Hev. destruct Hev as [Hvr Hip].
    apply negb_true_iff in Hip.
    cbn [step]. rewrite togglePlayPause_exec, Hvr, Hip.
    rewrite exec_playVideo_by_parts.
    cbn [async_run async_step component awaiting].
    unfold settle_or_await.
    assert (Hst : snd (fst (togglePlayPause_requests o s))
                  = with_isPlaying true (snd (fst (playVideo_requests o s)))).
    { rewrite togglePlayPause_requests_state, Hvr, Hip. reflexivity. }
    assert (Hre : fst (fst (togglePlayPause_requests o s))
                  = bothVideosReady s).
    { unfold togglePlayPause_requests, bind, get, modify, ret. cbn [fst snd].
      rewrite Hvr, Hip. cbn [fst snd]. apply playVideo_requests_reached. }
    rewrite Hre, Hst. destruct (bothVideosReady s) eqn:Hb.
    + destruct (rejection o) as [err|] eqn:Hrej.
      * exists []. split; reflexivity.
      * exists [PlaybackStarted Primary; PlaybackStarted Follower].
        split; [reflexivity|]. cbn [fst app].
        destruct (playVideo_requests_unpaused o s Hb Hrej) as [Pv Pm].
        rewrite both_start_after_requests by assumption.
        rewrite startSyncMonitoring_with_isPlaying. reflexivity.
    + exists []. split; [reflexivity|]. cbn [fst async_run].
      unfold playVideo_requests, bind, get. cbn [fst snd]. rewrite Hb.
      reflexivity.
  - (* ClickMesh *)
    cbn [step]. rewrite exec_playVideo_by_parts.
    cbn [async_run async_step component awaiting].
    unfold settle_or_await. rewrite playVideo_requests_reached.
    destruct (bothVideosReady s) eqn:Hb.
    + destruct (rejection o) as [err|] eqn:Hrej.
      * exists []. split; reflexivity.
      * exists [PlaybackStarted Primary; PlaybackStarted Follower].
        split; [reflexivity|]. cbn [fst app].
        destruct (playVideo_requests_unpaused o s Hb Hrej) as [Pv Pm].
        rewrite both_start_after_requests by assumption. reflexivity.
    + exists []. split; [reflexivity|]. cbn [fst async_run].
      unfold playVideo_requests, bind, get. cbn [fst snd]. rewrite Hb.
      reflexivity.
Qed.

(** Every state of the loop that takes the await in one step is a state of
    the other loop with nothing at its await. *)
Lemma run_is_async_run (evs : list event) (s : state) :
  exists es, async_run es (mkWorld s []) = mkWorld (run evs s) [].
Proof.
  revert s. induction evs as [|ev evs IH]; intros s.
  - exists []. reflexivity.
  - destruct (step_is_async_run ev s) as (settle & _ & H1).
    destruct (IH (exec (step ev) s)) as (es & H2).
    exists ((Now ev :: settle) ++ es).
    rewrite async_run_app, H1. exact H2.
Qed.

(** ** Timers, unmounting, and play followed by pause *)

(** In every state the component reaches, with [playVideo] calls at their
    await or not, at most one corrector timer runs, that is at most one
    interval timer whose callback is [syncVideos]; it is the one
    [syncIntervalRef] holds. *)
Theorem at_most_one_corrector_timer_runs :
  forall (v m : video) (es : list async_event),
    let s := component (async_run es (mounted_world v m)) in
    (length (intervals s) <= 1)%nat /\
    (forall id, In id (intervals s) -> syncIntervalRef s = Some id) /\
    (forall id, syncIntervalRef s = Some id -> intervals s = [id]).
Proof.
  intros v m es s.
  assert (Hown : timer_owned s)
    by (apply async_run_timer_owned, mounted_timer_owned).
  destruct Hown as (_ & H). destruct (syncIntervalRef s) as [r|].
  - destruct H as (Hr & Hi). rewrite Hi. split; [cbn; lia|]. split.
    + intros id [<-|[]]. reflexivity.
    + intros id [= <-]. reflexivity.
  - rewrite H. split; [cbn; lia|]. split.
    + intros id [].
    + intros id Hid. discriminate Hid.
Qed.

(** Unmounting while no [playVideo] call is at its await leaves no
    corrector timer behind: the cleanup clears the one running timer, if
    any, issues nothing else, leaves both elements as they were, and no
    later settlement brings a timer back.  (A call still at its await is
    not covered: its continuation would start a timer after the cleanup.) *)
Theorem cleanup_leaves_no_timer :
  forall (v m : video) (es after : list async_event),
    let w := async_run es (mounted_world v m) in
    awaiting w = [] ->
    forallb is_settlement after = true ->
    let w' := mkWorld (exec cleanup (component w)) (awaiting w) in
    effects cleanup (component w)
      = map ClearInterval (intervals (component w)) /\
    intervals (component w') = [] /\
    syncIntervalRef (component w') = None /\
    videoElement (component w') = videoElement (component w) /\
    maskElement (component w') = maskElement (component w) /\
    async_run after w' = w'.
Proof.
  intros v m es after w Ha Hs w'.
  assert (Hown : timer_owned (component w))
    by (apply async_run_timer_owned, mounted_timer_owned).
  assert (E : stopSyncMonitoring (component w) =
              (tt,
               with_syncIntervalRef None
                 (with_timers [] (nextTimerId (component w)) (component w)),
               match syncIntervalRef (component w) with
               | Some id => [ClearInterval id]
               | None => []
               end))
    by exact (stopSyncMonitoring_eq Hown).
  subst w'. unfold cleanup, exec, effects. rewrite E. cbn [fst snd component].
  split.
  { destruct Hown as (_ & H). destruct (syncIntervalRef (component w)) as [id|].
    - destruct H as (_ & ->). reflexivity.
    - rewrite H. reflexivity. }
  repeat split.
  apply settlements_with_nothing_awaiting; assumption.
Qed.

Lemma cleanup_leaves_no_timer_witness :
  let w :=
    async_run (map Now until_ready
               ++ [Now (ClickToggle started); PlaybackStarted Primary;
                   PlaybackStarted Follower])
      (mounted_world clip clip) in
  intervals (component w) = [1%nat] /\
  intervals (component (mkWorld (exec cleanup (component w)) (awaiting w)))
    = [].
Proof.
  cbv zeta. split; [reflexivity|].
  apply (cleanup_leaves_no_timer clip clip
           (map Now until_ready
            ++ [Now (ClickToggle started); PlaybackStarted Primary;
                PlaybackStarted Follower])
           [PlaybackStarted Primary; PlayRejected Follower "x"]);
    reflexivity.
Defined.




